(** * IP geolocation web map (map.js): a shallow embedding and its properties

    The program is browser glue around the MapLibre GL JS map object: it
    loads a GeoJSON document, registers it as a clustered source with three
    layers, binds click handlers, and updates a status line.  Part I embeds
    the data and the functions of [map.js] as Rocq definitions; Part II proves
    the properties.

    Conventions of the embedding:
    - a JavaScript string is the list of its UTF-16 code units ([jsstring]);
    - numbers that the program counts with (lengths, status codes, point
      counts) are integers; coordinates and camera parameters are exact
      rationals, so rounding of binary floating point is outside the model;
    - the globals [map] and [ipLocationData] and the DOM status node live in a
      [World] record that every function threads explicitly;
    - [console.log] output is not part of the state. *)

From Stdlib Require Import String Ascii List ZArith NArith QArith Qabs Qround.
From Stdlib Require Import Lia Lqa Bool.
Import ListNotations.

(* ================================================================== *)
(** * Part I: the embedding *)
(* ================================================================== *)

(** ** JavaScript strings *)

Definition jsstring := list N.

(** An ASCII literal of the source, as code units. *)
Definition lit (s : string) : jsstring :=
  map N_of_ascii (list_ascii_of_string s).

(** [s.length] *)
Definition js_length_str (s : jsstring) : nat := length s.

(** [s.substring(0, n)] *)
Definition substring0 (n : nat) (s : jsstring) : jsstring := firstn n s.

Fixpoint jsstring_eqb (a b : jsstring) : bool :=
  match a, b with
  | [], [] => true
  | x :: a', y :: b' => (x =? y)%N && jsstring_eqb a' b'
  | _, _ => false
  end.

(** Does [s] begin with [p]? *)
Fixpoint starts_with (p s : jsstring) : bool :=
  match p, s with
  | [], _ => true
  | x :: p', y :: s' => (x =? y)%N && starts_with p' s'
  | _ :: _, [] => false
  end.

(** [s.includes(p)]: [p] occurs at some position of [s]. *)
Fixpoint includes (p s : jsstring) : bool :=
  starts_with p s ||
  match s with
  | [] => false
  | _ :: s' => includes p s'
  end.


(** Decimal digits of a natural number, most significant first: the
    Number-to-string conversion for the non-negative integers the program
    prints.  A number has no more decimal digits than binary ones, which
    bounds the recursion. *)
Definition digit (d : N) : N := (48 + d)%N.

Fixpoint dec_aux (fuel : nat) (n : N) (acc : jsstring) : jsstring :=
  match fuel with
  | O => acc
  | S fuel' =>
      let acc' := digit (n mod 10) :: acc in
      if (n / 10 =? 0)%N then acc' else dec_aux fuel' (n / 10) acc'
  end.

Definition dec (n : N) : jsstring := dec_aux (S (N.to_nat (N.size n))) n [].


Definition dec_Z (z : Z) : jsstring :=
  if (z <? 0)%Z then lit "-" ++ dec (Z.to_N (- z)) else dec (Z.to_N z).


(** Emoji of the source's literals, as UTF-16 code units. *)
Definition emoji_chart : jsstring := [55357; 56522]%N.       (* U+1F4CA *)
Definition emoji_cross : jsstring := [10060]%N.              (* U+274C *)
Definition emoji_globe : jsstring := [55356; 57101]%N.       (* U+1F30D *)
Definition emoji_pin : jsstring := [55357; 56525]%N.         (* U+1F4CD *)
Definition emoji_map : jsstring := [55357; 56826; 65039]%N.  (* U+1F5FA U+FE0F *)
Definition emoji_link : jsstring := [55357; 56599]%N.        (* U+1F517 *)

(** A double-quoted attribute value inside a template. *)
Definition quoted (s : jsstring) : jsstring := [34%N] ++ s ++ [34%N].

(** ** JavaScript values *)

(** The values [JSON.parse] can produce, and [undefined] for absent
    properties.  Numbers are the integer-valued ones. *)
#[warnings="-register-all"] Inductive Val : Type :=
| VUndefined
| VNull
| VBool (b : bool)
| VNum (n : Z)
| VStr (s : jsstring)
| VArr (items : list Val)
| VObj (fields : list (jsstring * Val)).

(** ToBoolean *)
Definition truthy (v : Val) : bool :=
  match v with
  | VUndefined | VNull => false
  | VBool b => b
  | VNum n => negb (n =? 0)%Z
  | VStr s => match s with [] => false | _ => true end
  | VArr _ | VObj _ => true
  end.

Fixpoint lookup_field (k : jsstring) (fields : list (jsstring * Val)) : Val :=
  match fields with
  | [] => VUndefined
  | (k', v) :: rest => if jsstring_eqb k k' then v else lookup_field k rest
  end.

(** [v.k] for the two property names the program reads, [features] and
    [length].  Arrays and strings have a built-in [length]; an object
    answers from its own fields ([Object.prototype] has neither name);
    numbers and booleans have no such property.  Both reads in the source
    sit behind a truthiness test, so [null] and [undefined] never get here. *)
Definition get_prop (v : Val) (k : jsstring) : Val :=
  match v with
  | VObj fields => lookup_field k fields
  | VArr items =>
      if jsstring_eqb k (lit "length") then VNum (Z.of_nat (length items))
      else VUndefined
  | VStr s =>
      if jsstring_eqb k (lit "length") then VNum (Z.of_nat (length s))
      else VUndefined
  | _ => VUndefined
  end.

(** [v === 0] *)
Definition strict_eq_zero (v : Val) : bool :=
  match v with
  | VNum n => (n =? 0)%Z
  | _ => false
  end.

Fixpoint join_comma (parts : list jsstring) : jsstring :=
  match parts with
  | [] => []
  | [p] => p
  | p :: rest => p ++ lit "," ++ join_comma rest
  end.

(** The string a DOM text setter stores for a value: [null] and
    [undefined] become the empty string, everything else goes through
    ToString (arrays join their elements with commas). *)
Fixpoint to_text (v : Val) : jsstring :=
  match v with
  | VUndefined | VNull => []
  | VBool true => lit "true"
  | VBool false => lit "false"
  | VNum n => dec_Z n
  | VStr s => s
  | VArr items => join_comma (map to_text items)
  | VObj _ => lit "[object Object]"
  end.

(** ** Style expressions of the mapping library *)

(** A paint value is a number of pixels or a CSS colour. *)
Inductive PaintVal : Type :=
| PNum (n : Z)
| PColor (c : jsstring).

(** The two expression forms the program writes: a constant, and
    [['step', ['get', prop], out0, t1, out1, t2, out2, ...]]. *)
Inductive Expr : Type :=
| EConst (v : PaintVal)
| EStep (prop : jsstring) (out0 : PaintVal) (stops : list (Z * PaintVal)).

(** The library's [step]: the output of the last stop whose threshold is
    less than or equal to the input, or [out0] when the input is below the
    first threshold (thresholds are written in ascending order). *)
Fixpoint step_output (x : Z) (out : PaintVal) (stops : list (Z * PaintVal))
  : PaintVal :=
  match stops with
  | [] => out
  | (t, o) :: rest => if (t <=? x)%Z then step_output x o rest else out
  end.

(** Evaluation on a feature whose property [prop] holds the integer [x]. *)
Definition eval_expr (e : Expr) (x : Z) : PaintVal :=
  match e with
  | EConst v => v
  | EStep _ out0 stops => step_output x out0 stops
  end.

Inductive Filter : Type :=
| FHas (prop : jsstring)
| FNot (f : Filter).

Inductive LayoutVal : Type :=
| LStr (s : jsstring)
| LNum (n : Z)
| LStrs (l : list jsstring).

Record Layer : Type := {
  layer_id : jsstring;
  layer_type : jsstring;
  layer_source : jsstring;
  layer_filter : Filter;
  layer_layout : list (jsstring * LayoutVal);
  layer_paint : list (jsstring * Expr)
}.

Record Source : Type := {
  source_id : jsstring;
  source_type : jsstring;
  source_data : Val;
  source_cluster : bool;
  source_clusterMaxZoom : Z;
  source_clusterRadius : Z
}.

Fixpoint paint_of (name : jsstring) (paint : list (jsstring * Expr))
  : option Expr :=
  match paint with
  | [] => None
  | (k, e) :: rest => if jsstring_eqb name k then Some e else paint_of name rest
  end.

(** ** The style registry *)

(** What [mapStyles[key]] can evaluate to: a style URL, an inline raster
    style document, or a member that the object literal inherits from
    [Object.prototype]. *)
Inductive StyleVal : Type :=
| SUrl (url : jsstring)
| SRaster (id tiles attribution : jsstring) (tileSize minzoom maxzoom : Z)
| SInherited (name : jsstring).

Definition mapStyles : list (jsstring * StyleVal) :=
  [ (lit "streets", SUrl (lit "https://demotiles.maplibre.org/style.json"));
    (lit "satellite",
     SRaster (lit "esri")
       (lit "https://server.arcgisonline.com/ArcGIS/rest/services/World_Imagery/MapServer/tile/{z}/{y}/{x}")
       ([169%N] ++ lit " Esri") 256 0 22);
    (lit "dark",
     SRaster (lit "cartodb")
       (lit "https://cartodb-basemaps-a.global.ssl.fastly.net/dark_all/{z}/{x}/{y}.png")
       ([169%N] ++ lit " CartoDB") 256 0 22);
    (lit "light",
     SRaster (lit "cartodb")
       (lit "https://cartodb-basemaps-a.global.ssl.fastly.net/light_all/{z}/{x}/{y}.png")
       ([169%N] ++ lit " CartoDB") 256 0 22) ].

(** Property names every object literal inherits from [Object.prototype];
    each of them evaluates to a function or an object, hence is truthy. *)
Definition Object_prototype_names : list jsstring :=
  map lit [ "constructor"; "hasOwnProperty"; "isPrototypeOf";
            "propertyIsEnumerable"; "toLocaleString"; "toString"; "valueOf";
            "__proto__"; "__defineGetter__"; "__defineSetter__";
            "__lookupGetter__"; "__lookupSetter__" ]%string.

Fixpoint own_style (k : jsstring) (table : list (jsstring * StyleVal))
  : option StyleVal :=
  match table with
  | [] => None
  | (k', v) :: rest => if jsstring_eqb k k' then Some v else own_style k rest
  end.

(** [mapStyles[styleKey]]: an own property first, then the prototype;
    [None] is [undefined]. Every [Some] is truthy. *)
Definition mapStyles_get (k : jsstring) : option StyleVal :=
  match own_style k mapStyles with
  | Some v => Some v
  | None =>
      if existsb (jsstring_eqb k) Object_prototype_names
      then Some (SInherited k) else None
  end.

(** ** The map object and the page *)

Record Camera : Type := {
  center : Q * Q;          (* [lng, lat] *)
  zoom : Q;
  pitch : Q;
  bearing : Q
}.

Definition defaultMapConfig : Camera :=
  {| center := (- (985795 # 10000), 398283 # 10000);
     zoom := 3; pitch := 0; bearing := 0 |}.

Record Popup : Type := {
  popup_lngLat : Q * Q;
  popup_html : jsstring;
  popup_closeButton : bool;
  popup_closeOnClick : bool;
  popup_maxWidth : jsstring
}.

(** The four layer-scoped listeners of [addMapInteractions]. *)
Inductive Handler : Type :=
| HClusterClick
| HPointClick
| HCursorPointer
| HCursorReset.

(** Calls made on the map object, in the order they are made. *)
Inductive Call : Type :=
| CGetCenter | CGetZoom | CGetPitch | CGetBearing
| CSetStyle (v : StyleVal)
| COnce (event : jsstring)
| CSetCenter (c : Q * Q) | CSetZoom (z : Q) | CSetPitch (p : Q)
| CSetBearing (b : Q)
| CAddSource (id : jsstring)
| CAddLayer (id : jsstring)
| COn (event layer : jsstring)
| CEaseTo (target : Camera) (duration : option Z)
| CZoomIn | CZoomOut
| CAddPopup
| CQueryRenderedFeatures
| CGetClusterExpansionZoom (cluster_id : Z)
| CSetCursor (c : jsstring).

(** The program's view of the MapLibre map.  [sources] and [layers] are
    those registered through [addSource] and [addLayer] on the current
    style (the basemap's own live in the style document under other
    identifiers).  [once_styledata] holds the pending
    [map.once('styledata', ...)] closures, each as the camera it captured. *)
Record MapObj : Type := {
  style : StyleVal;
  camera : Camera;
  sources : list Source;
  layers : list Layer;
  listeners : list (jsstring * jsstring * Handler);
  once_styledata : list Camera;
  popups : list Popup;
  cursor : jsstring;
  calls : list Call
}.

(** The DOM node [#ip-count]. *)
Record StatusEl : Type := {
  textContent : jsstring;
  color : jsstring
}.

(** The page: the two globals of the script and the status node
    ([None] when [getElementById] finds none). *)
(** The listeners [setupEventListeners] attaches to the toolbar. *)
Inductive UiHandler : Type :=
| UStyleChange
| UZoomIn
| UZoomOut
| UResetView.

(** The page: the two globals of the script, the status node ([None] when
    [getElementById] finds none), the identifiers of the toolbar controls
    present in the document, and the listeners attached to them. *)
Record World : Type := {
  map : option MapObj;
  ipLocationData : Val;
  ip_count : option StatusEl;
  controls : list jsstring;
  ui_listeners : list (jsstring * jsstring * UiHandler)
}.

Definition set_map (m : MapObj) (w : World) : World :=
  {| map := Some m; ipLocationData := ipLocationData w;
     ip_count := ip_count w; controls := controls w;
     ui_listeners := ui_listeners w |}.

Definition set_ipLocationData (v : Val) (w : World) : World :=
  {| map := map w; ipLocationData := v;
     ip_count := ip_count w; controls := controls w;
     ui_listeners := ui_listeners w |}.

Definition set_ip_count (el : option StatusEl) (w : World) : World :=
  {| map := map w; ipLocationData := ipLocationData w;
     ip_count := el; controls := controls w;
     ui_listeners := ui_listeners w |}.

Definition add_ui_listener (l : jsstring * jsstring * UiHandler) (w : World)
  : World :=
  {| map := map w; ipLocationData := ipLocationData w;
     ip_count := ip_count w; controls := controls w;
     ui_listeners := ui_listeners w ++ [l] |}.

(** ** Statements that may throw *)

Inductive Res (A : Type) : Type :=
| Ok (a : A)
| Throw (message : jsstring).
Arguments Ok {A} a.
Arguments Throw {A} message.

Definition M (A : Type) : Type := World -> Res A * World.

Definition ret {A} (a : A) : M A := fun w => (Ok a, w).

Definition bind {A B} (m : M A) (k : A -> M B) : M B :=
  fun w =>
    match m w with
    | (Ok a, w') => k a w'
    | (Throw e, w') => (Throw e, w')
    end.

Definition throw {A} (message : jsstring) : M A := fun w => (Throw message, w).

(** [try { body } catch (error) { handler(error.message) }] *)
Definition try_catch (body : M unit) (handler : jsstring -> World -> World)
  : World -> World :=
  fun w =>
    match body w with
    | (Ok _, w') => w'
    | (Throw e, w') => handler e w'
    end.

Declare Scope js_scope.
Delimit Scope js_scope with js.
Notation "x <- c1 ;; c2" := (bind c1 (fun x => c2))
  (at level 61, c1 at next level, right associativity) : js_scope.
Notation "c1 ;; c2" := (bind c1 (fun _ => c2))
  (at level 61, right associativity) : js_scope.

(** A statement that cannot throw. *)
Definition lift (f : World -> World) : M unit := fun w => (Ok tt, f w).

(** ** Field updates of the map object *)

Definition log_call (c : Call) (m : MapObj) : MapObj :=
  {| style := style m; camera := camera m; sources := sources m;
     layers := layers m; listeners := listeners m;
     once_styledata := once_styledata m; popups := popups m;
     cursor := cursor m; calls := calls m ++ [c] |}.

Definition set_camera (c : Camera) (m : MapObj) : MapObj :=
  {| style := style m; camera := c; sources := sources m;
     layers := layers m; listeners := listeners m;
     once_styledata := once_styledata m; popups := popups m;
     cursor := cursor m; calls := calls m |}.

Definition set_sources (l : list Source) (m : MapObj) : MapObj :=
  {| style := style m; camera := camera m; sources := l;
     layers := layers m; listeners := listeners m;
     once_styledata := once_styledata m; popups := popups m;
     cursor := cursor m; calls := calls m |}.

Definition set_layers (l : list Layer) (m : MapObj) : MapObj :=
  {| style := style m; camera := camera m; sources := sources m;
     layers := l; listeners := listeners m;
     once_styledata := once_styledata m; popups := popups m;
     cursor := cursor m; calls := calls m |}.

Definition set_listeners (l : list (jsstring * jsstring * Handler))
  (m : MapObj) : MapObj :=
  {| style := style m; camera := camera m; sources := sources m;
     layers := layers m; listeners := l;
     once_styledata := once_styledata m; popups := popups m;
     cursor := cursor m; calls := calls m |}.

Definition set_once_styledata (l : list Camera) (m : MapObj) : MapObj :=
  {| style := style m; camera := camera m; sources := sources m;
     layers := layers m; listeners := listeners m;
     once_styledata := l; popups := popups m;
     cursor := cursor m; calls := calls m |}.

Definition set_popups (l : list Popup) (m : MapObj) : MapObj :=
  {| style := style m; camera := camera m; sources := sources m;
     layers := layers m; listeners := listeners m;
     once_styledata := once_styledata m; popups := l;
     cursor := cursor m; calls := calls m |}.

Definition set_cursor (c : jsstring) (m : MapObj) : MapObj :=
  {| style := style m; camera := camera m; sources := sources m;
     layers := layers m; listeners := listeners m;
     once_styledata := once_styledata m; popups := popups m;
     cursor := c; calls := calls m |}.

(** [map.setStyle(v)] replaces the style: what was registered on the old
    one is gone; the camera and the listeners stay. *)
Definition replace_style (v : StyleVal) (m : MapObj) : MapObj :=
  {| style := v; camera := camera m; sources := [];
     layers := []; listeners := listeners m;
     once_styledata := once_styledata m; popups := popups m;
     cursor := cursor m; calls := calls m |}.

Definition set_center (c : Q * Q) (cam : Camera) : Camera :=
  {| center := c; zoom := zoom cam; pitch := pitch cam; bearing := bearing cam |}.

Definition set_zoom (z : Q) (cam : Camera) : Camera :=
  {| center := center cam; zoom := z; pitch := pitch cam; bearing := bearing cam |}.

Definition set_pitch (p : Q) (cam : Camera) : Camera :=
  {| center := center cam; zoom := zoom cam; pitch := p; bearing := bearing cam |}.

Definition set_bearing (b : Q) (cam : Camera) : Camera :=
  {| center := center cam; zoom := zoom cam; pitch := pitch cam; bearing := b |}.

(** ** UI status functions *)

(** [updateIPCount(count)] *)
Definition updateIPCount (count : Val) (w : World) : World :=
  match ip_count w with
  | Some _ =>
      match count with
      | VNum n =>
          set_ip_count
            (Some {| textContent :=
                       emoji_chart ++ lit " " ++ dec_Z n
                       ++ lit " unique IP locations loaded";
                     color := lit "#27ae60" |}) w
      | _ =>
          set_ip_count
            (Some {| textContent := to_text count;
                     color := lit "#3498db" |}) w
      end
  | None => w
  end.

(** [showErrorMessage(message)] *)
Definition showErrorMessage (message : jsstring) (w : World) : World :=
  match ip_count w with
  | Some _ =>
      set_ip_count
        (Some {| textContent := emoji_cross ++ lit " Error: " ++ message;
                 color := lit "#e74c3c" |}) w
  | None => w
  end.

(** ** Calls on the map object *)

(** A method call on the global [map]: a [TypeError] when the global is
    still [undefined]. *)
Definition on_map {A} (f : MapObj -> Res A * MapObj) : M A :=
  fun w =>
    match map w with
    | Some m => let (r, m') := f m in (r, set_map m' w)
    | None => (Throw (lit "Cannot read properties of undefined"), w)
    end.

Definition has_source (id : jsstring) (m : MapObj) : bool :=
  existsb (fun s => jsstring_eqb id (source_id s)) (sources m).

Definition has_layer (id : jsstring) (m : MapObj) : bool :=
  existsb (fun l => jsstring_eqb id (layer_id l)) (layers m).

(** [map.addSource(id, source)]: the library throws when the identifier is
    already registered. *)
Definition addSource (s : Source) : M unit :=
  on_map (fun m =>
    let m' := log_call (CAddSource (source_id s)) m in
    if has_source (source_id s) m
    then (Throw (lit "Source " ++ quoted (source_id s) ++ lit " already exists."), m')
    else (Ok tt, set_sources (sources m ++ [s]) m')).

(** The listener [initializeMap] registers for the map's [error] event. *)
Definition on_map_error (message : jsstring) : World -> World :=
  showErrorMessage (lit "Map error: " ++ message).

(** [map.addLayer(layer)]: for an identifier already registered the library
    adds nothing and fires an [error] event instead of throwing. *)
Definition addLayer (l : Layer) : M unit :=
  fun w =>
    match map w with
    | Some m =>
        let m' := log_call (CAddLayer (layer_id l)) m in
        if has_layer (layer_id l) m
        then (Ok tt,
              on_map_error
                (lit "Layer " ++ quoted (layer_id l)
                 ++ lit " already exists on this map.")
                (set_map m' w))
        else (Ok tt, set_map (set_layers (layers m ++ [l]) m') w)
    | None => (Throw (lit "Cannot read properties of undefined"), w)
    end.

(** [map.on(event, layer, handler)] *)
Definition map_on (event layer : jsstring) (h : Handler) : M unit :=
  on_map (fun m =>
    (Ok tt,
     set_listeners (listeners m ++ [(event, layer, h)])
       (log_call (COn event layer) m))).

(** The camera getters and setters, [setStyle], [once('styledata', ...)],
    [easeTo], [zoomIn] and [zoomOut]. *)
Definition map_getCenter : M (Q * Q) :=
  on_map (fun m => (Ok (center (camera m)), log_call CGetCenter m)).

Definition map_getZoom : M Q :=
  on_map (fun m => (Ok (zoom (camera m)), log_call CGetZoom m)).

Definition map_getPitch : M Q :=
  on_map (fun m => (Ok (pitch (camera m)), log_call CGetPitch m)).

Definition map_getBearing : M Q :=
  on_map (fun m => (Ok (bearing (camera m)), log_call CGetBearing m)).

Definition map_setCenter (c : Q * Q) : M unit :=
  on_map (fun m =>
    (Ok tt, set_camera (set_center c (camera m)) (log_call (CSetCenter c) m))).

Definition map_setZoom (z : Q) : M unit :=
  on_map (fun m =>
    (Ok tt, set_camera (set_zoom z (camera m)) (log_call (CSetZoom z) m))).

Definition map_setPitch (p : Q) : M unit :=
  on_map (fun m =>
    (Ok tt, set_camera (set_pitch p (camera m)) (log_call (CSetPitch p) m))).

Definition map_setBearing (b : Q) : M unit :=
  on_map (fun m =>
    (Ok tt, set_camera (set_bearing b (camera m)) (log_call (CSetBearing b) m))).

Definition map_setStyle (v : StyleVal) : M unit :=
  on_map (fun m => (Ok tt, replace_style v (log_call (CSetStyle v) m))).

(** The closure is recorded as the camera values it captured. *)
Definition map_once_styledata (captured : Camera) : M unit :=
  on_map (fun m =>
    (Ok tt,
     set_once_styledata (once_styledata m ++ [captured])
       (log_call (COnce (lit "styledata")) m))).

(** [easeTo(options)], with the options that are given applied to the
    current camera; the camera is the one the animation ends on. *)
Definition map_easeTo (options : Camera -> Camera) (duration : option Z)
  : M unit :=
  on_map (fun m =>
    let target := options (camera m) in
    (Ok tt, set_camera target (log_call (CEaseTo target duration) m))).

(** [map.getCanvas().style.cursor = c] *)
Definition map_setCursor (c : jsstring) : M unit :=
  on_map (fun m => (Ok tt, set_cursor c (log_call (CSetCursor c) m))).

(** [zoomIn] and [zoomOut] move the zoom by one level. *)
Definition map_zoomIn : M unit :=
  on_map (fun m =>
    (Ok tt, set_camera (set_zoom (zoom (camera m) + 1) (camera m))
              (log_call CZoomIn m))).

Definition map_zoomOut : M unit :=
  on_map (fun m =>
    (Ok tt, set_camera (set_zoom (zoom (camera m) - 1) (camera m))
              (log_call CZoomOut m))).

(** [statement;] where an exception would leave the function: the state
    after the statement, whether it returned or threw. *)
Definition run {A} (c : M A) (w : World) : World := snd (c w).

(** ** Layer renderer *)

Definition ip_locations_source (data : Val) : Source :=
  {| source_id := lit "ip-locations";
     source_type := lit "geojson";
     source_data := data;
     source_cluster := true;
     source_clusterMaxZoom := 14;
     source_clusterRadius := 50 |}.

Definition clusters_layer : Layer :=
  {| layer_id := lit "clusters";
     layer_type := lit "circle";
     layer_source := lit "ip-locations";
     layer_filter := FHas (lit "point_count");
     layer_layout := [];
     layer_paint :=
       [ (lit "circle-color",
          EStep (lit "point_count") (PColor (lit "#51bbd6"))
            [ (10, PColor (lit "#f1f075")); (30, PColor (lit "#f28cb1")) ]%Z);
         (lit "circle-radius",
          EStep (lit "point_count") (PNum 20)
            [ (10, PNum 30); (30, PNum 40) ]%Z) ] |}.

Definition cluster_count_layer : Layer :=
  {| layer_id := lit "cluster-count";
     layer_type := lit "symbol";
     layer_source := lit "ip-locations";
     layer_filter := FHas (lit "point_count");
     layer_layout :=
       [ (lit "text-field", LStr (lit "{point_count_abbreviated}"));
         (lit "text-font",
          LStrs [lit "Open Sans Semibold"; lit "Arial Unicode MS Bold"]);
         (lit "text-size", LNum 12) ];
     layer_paint := [ (lit "text-color", EConst (PColor (lit "#ffffff"))) ] |}.

Definition unclustered_point_layer : Layer :=
  {| layer_id := lit "unclustered-point";
     layer_type := lit "circle";
     layer_source := lit "ip-locations";
     layer_filter := FNot (FHas (lit "point_count"));
     layer_layout := [];
     layer_paint :=
       [ (lit "circle-color", EConst (PColor (lit "#11b4da")));
         (lit "circle-radius", EConst (PNum 8));
         (lit "circle-stroke-width", EConst (PNum 2));
         (lit "circle-stroke-color", EConst (PColor (lit "#fff"))) ] |}.

Local Open Scope js_scope.

(** [addMapInteractions()] *)
Definition addMapInteractions : M unit :=
  map_on (lit "click") (lit "clusters") HClusterClick ;;
  map_on (lit "click") (lit "unclustered-point") HPointClick ;;
  map_on (lit "mouseenter") (lit "clusters") HCursorPointer ;;
  map_on (lit "mouseleave") (lit "clusters") HCursorReset ;;
  map_on (lit "mouseenter") (lit "unclustered-point") HCursorPointer ;;
  map_on (lit "mouseleave") (lit "unclustered-point") HCursorReset.

Definition addGeoJSONToMap_body : M unit :=
  (fun w => addSource (ip_locations_source (ipLocationData w)) w) ;;
  addLayer clusters_layer ;;
  addLayer cluster_count_layer ;;
  addLayer unclustered_point_layer ;;
  addMapInteractions.

(** [addGeoJSONToMap()] *)
Definition addGeoJSONToMap : World -> World :=
  try_catch addGeoJSONToMap_body
    (fun _ => showErrorMessage (lit "Failed to display IP locations on map.")).

(** The calls of a render in which every call succeeds, in order. *)
Definition render_calls : list Call :=
  [ CAddSource (lit "ip-locations");
    CAddLayer (lit "clusters"); CAddLayer (lit "cluster-count");
    CAddLayer (lit "unclustered-point");
    COn (lit "click") (lit "clusters");
    COn (lit "click") (lit "unclustered-point");
    COn (lit "mouseenter") (lit "clusters");
    COn (lit "mouseleave") (lit "clusters");
    COn (lit "mouseenter") (lit "unclustered-point");
    COn (lit "mouseleave") (lit "unclustered-point") ].

(** The map object after such a render. *)
Definition render_on (data : Val) (m : MapObj) : MapObj :=
  {| style := style m; camera := camera m;
     sources := sources m ++ [ip_locations_source data];
     layers := layers m
               ++ [clusters_layer; cluster_count_layer; unclustered_point_layer];
     listeners :=
       listeners m
       ++ [ (lit "click", lit "clusters", HClusterClick);
            (lit "click", lit "unclustered-point", HPointClick);
            (lit "mouseenter", lit "clusters", HCursorPointer);
            (lit "mouseleave", lit "clusters", HCursorReset);
            (lit "mouseenter", lit "unclustered-point", HCursorPointer);
            (lit "mouseleave", lit "unclustered-point", HCursorReset) ];
     once_styledata := once_styledata m; popups := popups m;
     cursor := cursor m;
     calls := calls m ++ render_calls |}.

(** [m'] shows the view of [m]: same camera, style and pending closures,
    and the calls of [m] followed by further ones. *)
Definition same_view (m m' : MapObj) : Prop :=
  camera m' = camera m /\ style m' = style m /\
  once_styledata m' = once_styledata m /\
  exists added, calls m' = calls m ++ added.

(** A statement that, run with a map in place, leaves the map in place
    with the same registered sources and the same view, and does not touch
    the loaded data. *)
Definition keeps_sources (c : M unit) : Prop :=
  forall w m,
    map w = Some m ->
    exists m',
      map (run c w) = Some m' /\ sources m' = sources m /\
      same_view m m' /\
      ipLocationData (run c w) = ipLocationData w.

(** ** Popups *)

Record Properties : Type := {
  ip : jsstring;
  url : jsstring
}.

Definition Qltb (x y : Q) : bool := negb (Qle_bool y x).

Definition pad_left (n : nat) (s : jsstring) : jsstring :=
  repeat 48%N (n - length s) ++ s.

(** [x.toFixed(f)] on an exact rational, following the language
    definition: the sign is split off, [n] is the integer nearest to
    [|x| * 10^f] (the larger one on a tie), its digits are padded with zeros
    to [f + 1] places and the point goes before the last [f] of them. *)
Definition toFixed (f : nat) (x : Q) : jsstring :=
  let n := Qfloor (Qabs x * inject_Z (10 ^ Z.of_nat f) + (1 # 2)) in
  let m := pad_left (S f) (dec (Z.to_N n)) in
  let k := length m in
  (if Qltb x 0 then lit "-" else [])
  ++ firstn (k - f) m
  ++ (if (f =? 0)%nat then [] else lit "." ++ skipn (k - f) m).

(** The text shown for the source URL. *)
Definition formattedUrl (properties : Properties) : jsstring :=
  if (50 <? js_length_str (url properties))%nat
  then substring0 50 (url properties) ++ lit "..."
  else url properties.

Definition nl : jsstring := [10%N].
Definition indent (n : nat) : jsstring := repeat 32%N n.

(** The template literal of [createPopup], line by line; the coordinates
    line and the anchor are named for the statements about them. *)
Definition popup_coordinates_line (coordinates : Q * Q) : jsstring :=
  indent 20 ++ lit "<p><strong>" ++ emoji_map ++ lit " Coordinates:</strong> "
  ++ toFixed 4 (snd coordinates) ++ lit ", " ++ toFixed 4 (fst coordinates)
  ++ lit "</p>" ++ nl.

Definition popup_anchor (properties : Properties) : jsstring :=
  indent 20 ++ lit "<a href=" ++ quoted (url properties)
  ++ lit " target=" ++ quoted (lit "_blank")
  ++ lit " class=" ++ quoted (lit "popup-url")
  ++ lit " title=" ++ quoted (url properties) ++ lit ">" ++ nl
  ++ indent 24 ++ formattedUrl properties ++ nl
  ++ indent 20 ++ lit "</a>" ++ nl.

Definition popup_head (properties : Properties) : jsstring :=
  nl
  ++ indent 12 ++ lit "<div class=" ++ quoted (lit "popup-content") ++ lit ">" ++ nl
  ++ indent 16 ++ lit "<h4 class=" ++ quoted (lit "popup-title") ++ lit ">"
     ++ emoji_globe ++ lit " IP Location Details</h4>" ++ nl
  ++ indent 16 ++ lit "<div class=" ++ quoted (lit "popup-info") ++ lit ">" ++ nl
  ++ indent 20 ++ lit "<p><strong>" ++ emoji_pin ++ lit " IP Address:</strong> "
     ++ ip properties ++ lit "</p>" ++ nl.

Definition popup_url_label : jsstring :=
  indent 20 ++ lit "<p><strong>" ++ emoji_link
  ++ lit " Source URL:</strong></p>" ++ nl.

Definition popup_tail : jsstring :=
  indent 16 ++ lit "</div>" ++ nl
  ++ indent 12 ++ lit "</div>" ++ nl
  ++ indent 8.

Definition popupHTML (coordinates : Q * Q) (properties : Properties)
  : jsstring :=
  popup_head properties
  ++ popup_coordinates_line coordinates
  ++ popup_url_label
  ++ popup_anchor properties
  ++ popup_tail.

(** [createPopup(coordinates, properties)]; its [catch] only logs. *)
Definition createPopup (coordinates : Q * Q) (properties : Properties)
  : World -> World :=
  try_catch
    (on_map (fun m =>
       (Ok tt,
        set_popups
          (popups m ++
           [ {| popup_lngLat := coordinates;
                popup_html := popupHTML coordinates properties;
                popup_closeButton := true;
                popup_closeOnClick := true;
                popup_maxWidth := lit "300px" |} ])
          (log_call CAddPopup m))))
    (fun _ w => w).

(** ** Click on an unclustered point *)

(** The event as the handler reads it: [e.lngLat.lng] and the first
    feature's coordinates and properties. *)
Record PointClick : Type := {
  click_lng : Q;
  feature_coordinates : Q * Q;
  feature_properties : Properties
}.

(** The [while] loop of the handler on [coordinates[0]]; [None] when the
    iterations allowed by [fuel] do not suffice. *)
Fixpoint wrap_loop (fuel : nat) (lng x : Q) : option Q :=
  if Qltb 180 (Qabs (lng - x)) then
    match fuel with
    | O => None
    | S fuel' =>
        wrap_loop fuel' lng (x + (if Qltb x lng then 360 else - (360)))
    end
  else Some x.

(** The coordinates handed to [createPopup]: the longitude after the loop,
    the latitude as it was. *)
Definition wrap_coordinates (fuel : nat) (lng : Q) (coordinates : Q * Q)
  : option (Q * Q) :=
  match wrap_loop fuel lng (fst coordinates) with
  | Some x => Some (x, snd coordinates)
  | None => None
  end.

Definition on_point_click (fuel : nat) (e : PointClick) (w : World)
  : option World :=
  match wrap_coordinates fuel (click_lng e) (feature_coordinates e) with
  | Some coordinates => Some (createPopup coordinates (feature_properties e) w)
  | None => None
  end.

(** ** Click on a cluster, and hovering *)

(** An exception that no [catch] takes reaches the listener registered on
    [window] for [error]. *)
Definition on_window_error : World -> World :=
  showErrorMessage (lit "An unexpected error occurred. Please refresh the page.").

(** The event as the cluster listener reads it: the features that
    [queryRenderedFeatures] returns at the point, each with its
    [cluster_id] and coordinates, and what the source answers to
    [getClusterExpansionZoom] (an error, or the zoom).  [getSource] gives
    [undefined] for a source that is not registered, and the call of the
    callback is taken together with the click. *)
Record ClusterClick : Type := {
  rendered_clusters : list (Z * (Q * Q));
  expansion_zoom : Res Q
}.

Definition on_cluster_click (e : ClusterClick) (w : World) : World :=
  match
    (on_map (fun m => (Ok tt, log_call CQueryRenderedFeatures m)) ;;
     match rendered_clusters e with
     | [] => throw (lit "Cannot read properties of undefined")
     | (clusterId, coordinates) :: _ =>
         on_map (fun m =>
           if has_source (lit "ip-locations") m
           then (Ok tt, log_call (CGetClusterExpansionZoom clusterId) m)
           else (Throw (lit "Cannot read properties of undefined"), m)) ;;
         match expansion_zoom e with
         | Throw _ => ret tt
         | Ok z =>
             map_easeTo (fun cam => set_zoom z (set_center coordinates cam)) None
         end
     end)%js w
  with
  | (Ok _, w') => w'
  | (Throw _, w') => on_window_error w'
  end.

(** The [mouseenter] and [mouseleave] listeners of both layers. *)
Definition on_mouseenter : World -> World :=
  run (map_setCursor (lit "pointer")).

Definition on_mouseleave : World -> World :=
  run (map_setCursor []).

(** ** Data loader *)

(** What the two [await]s of [loadGeoJSONData] deliver: the fetch is
    rejected with a message, or there is a response with its status, status
    text, and the outcome of [JSON.parse] on its text (a value, or the
    message of the [SyntaxError]). *)
Inductive FetchOutcome : Type :=
| FetchRejected (message : jsstring)
| FetchResponse (status : N) (statusText : jsstring) (json : Res Val).

(** [response.ok] *)
Definition response_ok (status : N) : bool :=
  (200 <=? status)%N && (status <=? 299)%N.

(** The first statement of the load: the status line says so. *)
Definition loading_shown : World -> World :=
  updateIPCount (VStr (lit "Loading IP locations...")).

(** The message of the error thrown for a response that is not ok. *)
Definition http_error_message (status : N) (statusText : jsstring) : jsstring :=
  lit "HTTP error! status: " ++ dec status ++ lit " - " ++ statusText.

Definition loadGeoJSONData_body (o : FetchOutcome) : M unit :=
  lift loading_shown ;;
  match o with
  | FetchRejected message => throw message
  | FetchResponse status statusText json =>
      if negb (response_ok status) then
        throw (http_error_message status statusText)
      else
        match json with
        | Throw message => throw message
        | Ok v =>
            lift (set_ipLocationData v) ;;
            (fun w =>
               let data := ipLocationData w in
               if negb (truthy data)
                  || negb (truthy (get_prop data (lit "features")))
               then throw (lit "Invalid GeoJSON structure - missing features array") w
               else if strict_eq_zero
                         (get_prop (get_prop data (lit "features")) (lit "length"))
               then throw (lit "GeoJSON file contains no features") w
               else
                 (lift (updateIPCount
                          (get_prop (get_prop data (lit "features")) (lit "length"))) ;;
                  lift addGeoJSONToMap) w)
        end
  end.

Definition loadGeoJSONData_catch (message : jsstring) : World -> World :=
  if includes (lit "404") message then
    showErrorMessage (lit "GeoJSON file not found. Please check the file path.")
  else if includes (lit "Failed to fetch") message then
    showErrorMessage
      (lit "Network error. Please ensure you are running this from a web server.")
  else
    showErrorMessage (lit "Failed to load IP location data: " ++ message).

(** [loadGeoJSONData()], given what the fetch delivers. *)
Definition loadGeoJSONData (o : FetchOutcome) : World -> World :=
  try_catch (loadGeoJSONData_body o) loadGeoJSONData_catch.

(** ** Style switch and camera controls *)

(** The closure passed to [map.once('styledata', ...)], holding the camera
    captured before the style change. *)
Definition restore_after_style (captured : Camera) : World -> World :=
  run
    (map_setCenter (center captured) ;;
     map_setZoom (zoom captured) ;;
     map_setPitch (pitch captured) ;;
     map_setBearing (bearing captured) ;;
     (fun w =>
        if truthy (ipLocationData w) then lift addGeoJSONToMap w
        else ret tt w)).

(** [changeMapStyle(styleKey)] *)
Definition changeMapStyle (styleKey : jsstring) (w : World) : World :=
  match map w, mapStyles_get styleKey with
  | Some _, Some v =>
      try_catch
        (currentCenter <- map_getCenter ;;
         currentZoom <- map_getZoom ;;
         currentPitch <- map_getPitch ;;
         currentBearing <- map_getBearing ;;
         map_setStyle v ;;
         map_once_styledata
           {| center := currentCenter; zoom := currentZoom;
              pitch := currentPitch; bearing := currentBearing |})
        (fun _ => showErrorMessage (lit "Failed to change map style."))
        w
  | _, _ => w
  end.

(** The calls [changeMapStyle] makes for a style [v], in order. *)
Definition switch_calls (v : StyleVal) : list Call :=
  [ CGetCenter; CGetZoom; CGetPitch; CGetBearing;
    CSetStyle v; COnce (lit "styledata") ].

(** The calls of the [styledata] closure before it decides on the render. *)
Definition restore_calls (captured : Camera) : list Call :=
  [ CSetCenter (center captured); CSetZoom (zoom captured);
    CSetPitch (pitch captured); CSetBearing (bearing captured) ].

(** The map fires [styledata]: every pending [once] closure runs, in
    registration order, and is dropped. *)
Definition fire_styledata (w : World) : World :=
  match map w with
  | Some m =>
      fold_left (fun w' captured => restore_after_style captured w')
        (once_styledata m)
        (set_map (set_once_styledata [] m) w)
  | None => w
  end.

(** [resetMapView()]; its [catch] only logs. *)
Definition resetMapView (w : World) : World :=
  match map w with
  | Some _ =>
      try_catch (map_easeTo (fun _ => defaultMapConfig) (Some 2000%Z))
        (fun _ w' => w') w
  | None => w
  end.

(** The click listener of [#zoom-in]. *)
Definition zoomInClick (w : World) : World :=
  match map w with
  | Some _ => run map_zoomIn w
  | None => w
  end.

(** The click listener of [#zoom-out]. *)
Definition zoomOutClick (w : World) : World :=
  match map w with
  | Some _ => run map_zoomOut w
  | None => w
  end.

(** ** Wiring *)

Definition has_control (id : jsstring) (w : World) : bool :=
  existsb (jsstring_eqb id) (controls w).

Definition listen (id event : jsstring) (h : UiHandler) (w : World) : World :=
  if has_control id w then add_ui_listener (id, event, h) w else w.

(** [setupEventListeners()] *)
Definition setupEventListeners (w : World) : World :=
  listen (lit "reset-view") (lit "click") UResetView
    (listen (lit "zoom-out") (lit "click") UZoomOut
       (listen (lit "zoom-in") (lit "click") UZoomIn
          (listen (lit "map-style") (lit "change") UStyleChange w))).

(** What a toolbar listener does; [value] is [e.target.value]. *)
Definition run_ui_handler (h : UiHandler) (value : jsstring) : World -> World :=
  match h with
  | UStyleChange => changeMapStyle value
  | UZoomIn => zoomInClick
  | UZoomOut => zoomOutClick
  | UResetView => resetMapView
  end.

(** The browser dispatches [event] on the control [id]. *)
Definition dispatch_ui (id event value : jsstring) (w : World) : World :=
  fold_left
    (fun w' l =>
       match l with
       | (id', event', h) =>
           if jsstring_eqb id id' && jsstring_eqb event event'
           then run_ui_handler h value w' else w'
       end)
    (ui_listeners w) w.

(** [initializeMap()]; [loaded] says whether the [maplibregl] global
    exists.  The three controls added to the map are not part of the
    state. *)
Definition initializeMap (loaded : bool) (w : World) : World :=
  try_catch
    (if loaded then
       lift (set_map
               {| style := SUrl (lit "https://demotiles.maplibre.org/style.json");
                  camera := defaultMapConfig;
                  sources := []; layers := []; listeners := [];
                  once_styledata := []; popups := []; cursor := [];
                  calls := [] |})
     else throw (lit "MapLibre GL JS library not loaded"))
    (fun message => showErrorMessage (lit "Failed to initialize map: " ++ message))
    w.

(** The page before the script runs, with every element present. *)
Definition initial_world : World :=
  {| map := None;
     ipLocationData := VNull;
     ip_count := Some {| textContent := []; color := [] |};
     controls := [lit "map-style"; lit "zoom-in"; lit "zoom-out"; lit "reset-view"];
     ui_listeners := [] |}.

(** The page once [DOMContentLoaded] has run both set-up functions. *)
Definition ready_world : World :=
  initializeMap true (setupEventListeners initial_world).

Local Close Scope js_scope.

(** ** Sample inputs *)

(** A url of 60 code units. *)
Definition sixty_char_url : jsstring :=
  lit "https://example.org/a/very/long/path/that/goes/on/and/on.png".

(** A well-formed document without any feature. *)
Definition empty_collection : Val :=
  VObj [ (lit "type", VStr (lit "FeatureCollection"));
         (lit "features", VArr []) ].

(** A document without a [features] member. *)
Definition no_features_document : Val :=
  VObj [ (lit "type", VStr (lit "FeatureCollection")) ].

(** A document with one point feature. *)
Definition one_point_collection : Val :=
  VObj [ (lit "type", VStr (lit "FeatureCollection"));
         (lit "features",
          VArr [ VObj [ (lit "type", VStr (lit "Feature"));
                        (lit "properties",
                         VObj [ (lit "ip", VStr (lit "203.0.113.7"));
                                (lit "url", VStr (lit "https://example.org/")) ]);
                        (lit "geometry",
                         VObj [ (lit "type", VStr (lit "Point"));
                                (lit "coordinates", VArr [VNum 12; VNum 48]) ]) ] ]) ].

(** ** Page events *)

(** The listener [initializeMap] registers for the map's [error] event:
    [e.error?.message || 'Unknown map error']. *)
Definition map_error_listener (message : option jsstring) : World -> World :=
  showErrorMessage
    (lit "Map error: "
     ++ match message with
        | Some (c :: s) => c :: s
        | _ => lit "Unknown map error"
        end).

(** The listener on [window] for [unhandledrejection]. *)
Definition on_unhandled_rejection : World -> World :=
  showErrorMessage (lit "A network error occurred. Please check your connection.").

(** The [DOMContentLoaded] listener; the timer it starts only restyles the
    map container. *)
Definition onDOMContentLoaded (loaded : bool) : World -> World :=
  try_catch
    (bind (lift setupEventListeners) (fun _ => lift (initializeMap loaded)))
    (fun _ => showErrorMessage
                (lit "Application failed to start. Please refresh the page.")).

(** A mouse event on a layer, as the two click listeners read it. *)
Record MapMouseEvent : Type := {
  as_point : PointClick;
  as_cluster : ClusterClick
}.

(** What a layer listener does with the event; [fuel] bounds the loop of
    the point listener. *)
Definition run_handler (fuel : nat) (h : Handler) (e : MapMouseEvent)
  (w : World) : option World :=
  match h with
  | HClusterClick => Some (on_cluster_click (as_cluster e) w)
  | HPointClick => on_point_click fuel (as_point e) w
  | HCursorPointer => Some (on_mouseenter w)
  | HCursorReset => Some (on_mouseleave w)
  end.

(** The listeners registered for [event] on [layer] run in registration
    order. *)
Fixpoint fire_listeners (fuel : nat) (event layer : jsstring)
  (e : MapMouseEvent) (ls : list (jsstring * jsstring * Handler))
  (w : World) : option World :=
  match ls with
  | [] => Some w
  | (event', layer', h) :: rest =>
      if jsstring_eqb event event' && jsstring_eqb layer layer' then
        match run_handler fuel h e w with
        | Some w' => fire_listeners fuel event layer e rest w'
        | None => None
        end
      else fire_listeners fuel event layer e rest w
  end.

(** A popup made with [closeOnClick] closes at the next click on the map:
    of the [n] popups open before the click, those stay that were made
    without it. *)
Definition close_on_click (n : nat) (m : MapObj) : MapObj :=
  set_popups
    (filter (fun p => negb (popup_closeOnClick p)) (firstn n (popups m))
     ++ skipn n (popups m))
    m.

(** The map dispatches a mouse event on a layer: the listeners run if the
    layer is there, and a click then closes the popups that were open. *)
Definition fire_layer_event (fuel : nat) (event layer : jsstring)
  (e : MapMouseEvent) (w : World) : option World :=
  match map w with
  | Some m =>
      match
        (if has_layer layer m
         then fire_listeners fuel event layer e (listeners m) w
         else Some w)
      with
      | Some w' =>
          if jsstring_eqb event (lit "click")
          then Some (run (on_map (fun m' =>
                             (Ok tt, close_on_click (length (popups m)) m'))) w')
          else Some w'
      | None => None
      end
  | None => Some w
  end.

(** Everything that can happen to the page.  The events of the map need a
    map. *)
Inductive Event : Type :=
| EDomContentLoaded (loaded : bool)
| EUi (id event value : jsstring)
| EWindowError
| EUnhandledRejection
| EMapLoad (o : FetchOutcome)
| EMapError (message : option jsstring)
| EStyleData
| ELayer (fuel : nat) (event layer : jsstring) (e : MapMouseEvent).

(** One event; [None] when the event cannot occur (no map) or when [fuel]
    does not suffice for the loop of a point click. *)
Definition step (ev : Event) (w : World) : option World :=
  match ev with
  | EDomContentLoaded loaded => Some (onDOMContentLoaded loaded w)
  | EUi id event value => Some (dispatch_ui id event value w)
  | EWindowError => Some (on_window_error w)
  | EUnhandledRejection => Some (on_unhandled_rejection w)
  | EMapLoad o =>
      match map w with Some _ => Some (loadGeoJSONData o w) | None => None end
  | EMapError message =>
      match map w with Some _ => Some (map_error_listener message w) | None => None end
  | EStyleData =>
      match map w with Some _ => Some (fire_styledata w) | None => None end
  | ELayer fuel event layer e =>
      match map w with
      | Some _ => fire_layer_event fuel event layer e w
      | None => None
      end
  end.

(** The pages the script can bring about, from a page without a map. *)
Inductive reachable : World -> Prop :=
| reach_start (w : World) : map w = None -> reachable w
| reach_step (w w' : World) (ev : Event) :
    reachable w -> step ev w = Some w' -> reachable w'.

(** The data layers of a map are all absent or all present. *)
Definition blank_or_rendered (m : MapObj) : Prop :=
  (sources m = [] /\ layers m = []) \/
  (exists data,
      sources m = [ip_locations_source data] /\
      layers m = [clusters_layer; cluster_count_layer; unclustered_point_layer]).


(** The six listeners one run of [addMapInteractions] registers. *)
Definition interaction_listeners : list (jsstring * jsstring * Handler) :=
  [ (lit "click", lit "clusters", HClusterClick);
    (lit "click", lit "unclustered-point", HPointClick);
    (lit "mouseenter", lit "clusters", HCursorPointer);
    (lit "mouseleave", lit "clusters", HCursorReset);
    (lit "mouseenter", lit "unclustered-point", HCursorPointer);
    (lit "mouseleave", lit "unclustered-point", HCursorReset) ].

(** The listeners of the map are [k] such sets. *)
Definition listener_sets (k : nat) (m : MapObj) : Prop :=
  listeners m = concat (repeat interaction_listeners k).

(** The data layers are whole, and the layer listeners come in sets, at
    least one where the layers are there. *)
Definition well_formed (w : World) : Prop :=
  match map w with
  | Some m =>
      blank_or_rendered m /\
      exists k, listener_sets k m /\ (layers m <> [] -> (1 <= k)%nat)
  | None => True
  end.


(** [w'] holds the data of [w] and has a map exactly when [w] has one, with
    the same sources, layers and layer listeners. *)
Definition keeps_layers (w w' : World) : Prop :=
  ipLocationData w' = ipLocationData w /\
  match map w, map w' with
  | Some m, Some m' =>
      sources m' = sources m /\ layers m' = layers m /\
      listeners m' = listeners m
  | None, None => True
  | _, _ => False
  end.

(** The load goes on to show the count and to render: the response is ok,
    its body parses, and the value passes both tests. *)
Definition load_accepts (o : FetchOutcome) : bool :=
  match o with
  | FetchResponse status _ (Ok v) =>
      response_ok status
      && truthy v
      && truthy (get_prop v (lit "features"))
      && negb (strict_eq_zero
                 (get_prop (get_prop v (lit "features")) (lit "length")))
  | _ => false
  end.

(** A session: the page starts, the map loads one point, the user picks
    the dark style, and the style arrives. *)
Definition sample_started : World := onDOMContentLoaded true initial_world.

Definition sample_loaded : World :=
  loadGeoJSONData (FetchResponse 200 (lit "OK") (Ok one_point_collection))
    sample_started.

Definition sample_switched : World :=
  dispatch_ui (lit "map-style") (lit "change") (lit "dark") sample_loaded.

Definition sample_session : World := fire_styledata sample_switched.

(** The map of [ready_world]. *)
Definition ready_map : MapObj :=
  {| style := SUrl (lit "https://demotiles.maplibre.org/style.json");
     camera := defaultMapConfig;
     sources := []; layers := []; listeners := [];
     once_styledata := []; popups := []; cursor := []; calls := [] |}.


(** A click at longitude -179 on the feature at longitude 179, which the
    library also reports as the cluster 7 at (12, 48) expanding at zoom 6. *)
Definition sample_click : MapMouseEvent :=
  {| as_point :=
       {| click_lng := - (179);
          feature_coordinates := (179, 10);
          feature_properties :=
            {| ip := lit "203.0.113.7"; url := lit "https://example.org/" |} |};
     as_cluster :=
       {| rendered_clusters := [(7%Z, (12, 48))];
          expansion_zoom := Ok 6 |} |}.

(** The library's reading of the two filter forms on a feature, given
    which properties the feature has. *)
Fixpoint eval_filter (f : Filter) (has : jsstring -> bool) : bool :=
  match f with
  | FHas prop => has prop
  | FNot f' => negb (eval_filter f' has)
  end.

(* ================================================================== *)
(** * Part II: properties *)
(* ================================================================== *)

(** ** Cluster buckets *)

Example step_below_first_stop :
  step_output 3 (PNum 20) [(10, PNum 30); (30, PNum 40)]%Z = PNum 20.
Proof. reflexivity. Qed.

Lemma step_two_stops (x t1 t2 : Z) (o0 o1 o2 : PaintVal) :
  (t1 <= t2)%Z ->
  step_output x o0 [(t1, o1); (t2, o2)] =
  if (x <? t1)%Z then o0 else if (x <? t2)%Z then o1 else o2.
Proof.
  intros Hle. simpl.
  destruct (Z.leb_spec t1 x), (Z.ltb_spec x t1); try lia; try reflexivity.
  destruct (Z.leb_spec t2 x), (Z.ltb_spec x t2); try lia; reflexivity.
Qed.

(** C1: for every point count [n] the step expressions of the clusters
    layer give radius 20 and colour #51bbd6 when [n < 10], radius 30 and
    #f1f075 when [10 <= n < 30], radius 40 and #f28cb1 when [30 <= n]; so
    9, 10 and 30 fall in the first, second and third bucket. *)
Theorem clusters_step_buckets :
  exists radius colour,
    paint_of (lit "circle-radius") (layer_paint clusters_layer) = Some radius /\
    paint_of (lit "circle-color") (layer_paint clusters_layer) = Some colour /\
    (forall n : Z,
        (eval_expr radius n, eval_expr colour n) =
        if (n <? 10)%Z then (PNum 20, PColor (lit "#51bbd6"))
        else if (n <? 30)%Z then (PNum 30, PColor (lit "#f1f075"))
        else (PNum 40, PColor (lit "#f28cb1"))) /\
    (eval_expr radius 9, eval_expr colour 9)
      = (PNum 20, PColor (lit "#51bbd6")) /\
    (eval_expr radius 10, eval_expr colour 10)
      = (PNum 30, PColor (lit "#f1f075")) /\
    (eval_expr radius 30, eval_expr colour 30)
      = (PNum 40, PColor (lit "#f28cb1")).
Proof.
  eexists; eexists.
  split; [reflexivity |]. split; [reflexivity |].
  split; [| repeat split; reflexivity].
  intros n. unfold eval_expr.
  rewrite !step_two_stops by lia.
  destruct (n <? 10)%Z; [reflexivity |].
  destruct (n <? 30)%Z; reflexivity.
Qed.

(** ** Antimeridian adjustment *)






Example wrap_179 (lat : Q) :
  wrap_coordinates 1 (- (179)) (179, lat) = Some (- (181), lat).
Proof. reflexivity. Qed.


(** ** Strings *)

Example dec_404 : dec 404%N = lit "404".
Proof. reflexivity. Qed.

Example dec_0 : dec 0%N = lit "0".
Proof. reflexivity. Qed.

Example dec_1810000 : dec 1810000%N = lit "1810000".
Proof. reflexivity. Qed.

Example includes_404 :
  includes (lit "404") (lit "HTTP error! status: 404 - Not Found") = true.
Proof. reflexivity. Qed.

Example sixty_char_url_length : length sixty_char_url = 60%nat.
Proof. reflexivity. Qed.

Lemma jsstring_eqb_refl (a : jsstring) : jsstring_eqb a a = true.
Proof.
  induction a as [| x a IH]; [reflexivity |].
  simpl. rewrite N.eqb_refl. exact IH.
Qed.

Lemma jsstring_eqb_eq (a b : jsstring) : jsstring_eqb a b = true <-> a = b.
Proof.
  split; [| intros ->; apply jsstring_eqb_refl].
  revert b. induction a as [| x a IH]; intros [| y b]; simpl; try discriminate.
  - reflexivity.
  - intros H. apply andb_true_iff in H. destruct H as [Hx Hab].
    apply N.eqb_eq in Hx. subst. f_equal. apply IH, Hab.
Qed.











(** ** Status line *)



(** ** Popup content *)

Example toFixed_lat : toFixed 4 (398283 # 10000) = lit "39.8283".
Proof. reflexivity. Qed.

Example toFixed_wrapped : toFixed 4 (- (181)) = lit "-181.0000".
Proof. reflexivity. Qed.

Example toFixed_third : toFixed 4 (1 # 3) = lit "0.3333".
Proof. reflexivity. Qed.

Example toFixed_tie : toFixed 4 (5 # 100000) = lit "0.0001".
Proof. reflexivity. Qed.

Example toFixed_small_negative : toFixed 4 (- (1 # 100000)) = lit "-0.0000".
Proof. reflexivity. Qed.






(** ** Guards on the map handle *)

(** C10: while the global [map] is unset, [changeMapStyle], [resetMapView]
    and the zoom-in and zoom-out listeners return the page exactly as they
    found it: no call on the map, no change of state, no message. *)
Theorem unset_map_is_left_alone (w : World) :
  map w = None ->
  (forall styleKey, changeMapStyle styleKey w = w) /\
  resetMapView w = w /\
  zoomInClick w = w /\
  zoomOutClick w = w /\
  (forall h value, run_ui_handler h value w = w).
Proof.
  intros Hmap.
  assert (Hstyle : forall styleKey, changeMapStyle styleKey w = w).
  { intros styleKey. unfold changeMapStyle. rewrite Hmap. reflexivity. }
  assert (Hreset : resetMapView w = w)
    by (unfold resetMapView; rewrite Hmap; reflexivity).
  assert (Hin : zoomInClick w = w)
    by (unfold zoomInClick; rewrite Hmap; reflexivity).
  assert (Hout : zoomOutClick w = w)
    by (unfold zoomOutClick; rewrite Hmap; reflexivity).
  repeat (split; [assumption |]).
  intros [] value; cbn [run_ui_handler]; auto.
Qed.

Lemma unset_map_is_left_alone_witness :
  map (setupEventListeners initial_world) = None /\
  zoomInClick (setupEventListeners initial_world)
  = setupEventListeners initial_world.
Proof.
  split; [reflexivity |].
  exact (proj1 (proj2 (proj2
           (unset_map_is_left_alone (setupEventListeners initial_world)
              eq_refl)))).
Defined.

(** Dispatching the toolbar events on the set-up page without a map
    changes nothing either. *)
Lemma toolbar_without_map :
  let w := setupEventListeners initial_world in
  dispatch_ui (lit "zoom-in") (lit "click") [] w = w /\
  dispatch_ui (lit "zoom-out") (lit "click") [] w = w /\
  dispatch_ui (lit "reset-view") (lit "click") [] w = w /\
  dispatch_ui (lit "map-style") (lit "change") (lit "dark") w = w.
Proof. repeat split. Qed.

(** ** Style keys *)

Lemma mapStyles_get_none (k : jsstring) :
  mapStyles_get k = None <->
  own_style k mapStyles = None /\
  existsb (jsstring_eqb k) Object_prototype_names = false.
Proof.
  unfold mapStyles_get.
  destruct (own_style k mapStyles); [split; [discriminate | intros [? _]; discriminate] |].
  destruct (existsb (jsstring_eqb k) Object_prototype_names);
    split; try discriminate; auto.
  intros [_ ?]; discriminate.
Qed.

(** A key that names no property of [mapStyles] at all is ignored. *)
Lemma changeMapStyle_undefined_key (k : jsstring) (w : World) :
  mapStyles_get k = None -> changeMapStyle k w = w.
Proof.
  intros H. unfold changeMapStyle. rewrite H. destruct (map w); reflexivity.
Qed.

Example changeMapStyle_terrain :
  changeMapStyle (lit "terrain") ready_world = ready_world.
Proof. apply changeMapStyle_undefined_key. reflexivity. Qed.

(** C8, evaluated at the key [constructor], which the style registry does
    not define: the lookup finds the member inherited from
    [Object.prototype], the guard passes, the camera is read, [setStyle] is
    called with that member and a [styledata] closure is registered. *)
Theorem changeMapStyle_inherited_key :
  own_style (lit "constructor") mapStyles = None /\
  exists m,
    map (changeMapStyle (lit "constructor") ready_world) = Some m /\
    style m = SInherited (lit "constructor") /\
    calls m = [ CGetCenter; CGetZoom; CGetPitch; CGetBearing;
                CSetStyle (SInherited (lit "constructor"));
                COnce (lit "styledata") ] /\
    once_styledata m = [defaultMapConfig] /\
    changeMapStyle (lit "constructor") ready_world <> ready_world.
Proof.
  split; [reflexivity |].
  eexists. split; [reflexivity |].
  repeat (split; [reflexivity |]).
  intros H. apply (f_equal map) in H. vm_compute in H. discriminate.
Qed.

(** ** Rendering *)

Lemma MapObj_ext (a b : MapObj) :
  style a = style b -> camera a = camera b -> sources a = sources b ->
  layers a = layers b -> listeners a = listeners b ->
  once_styledata a = once_styledata b -> popups a = popups b ->
  cursor a = cursor b -> calls a = calls b -> a = b.
Proof.
  destruct a, b. cbn. intros. subst. reflexivity.
Qed.

Lemma set_map_set_map (a b : MapObj) (w : World) :
  set_map a (set_map b w) = set_map a w.
Proof. reflexivity. Qed.

Lemma addSource_ok (s : Source) (w : World) (m : MapObj) :
  map w = Some m -> has_source (source_id s) m = false ->
  addSource s w
  = (Ok tt, set_map (set_sources (sources m ++ [s])
                       (log_call (CAddSource (source_id s)) m)) w).
Proof.
  intros Hmap Hfresh. unfold addSource, on_map. rewrite Hmap, Hfresh. reflexivity.
Qed.

Lemma addSource_duplicate (s : Source) (w : World) (m : MapObj) :
  map w = Some m -> has_source (source_id s) m = true ->
  exists e,
    addSource s w
    = (Throw e, set_map (log_call (CAddSource (source_id s)) m) w).
Proof.
  intros Hmap Hdup. unfold addSource, on_map. rewrite Hmap, Hdup.
  eexists. reflexivity.
Qed.

Lemma addLayer_ok (l : Layer) (w : World) (m : MapObj) :
  map w = Some m -> has_layer (layer_id l) m = false ->
  addLayer l w
  = (Ok tt, set_map (set_layers (layers m ++ [l])
                       (log_call (CAddLayer (layer_id l)) m)) w).
Proof.
  intros Hmap Hfresh. unfold addLayer. rewrite Hmap, Hfresh. reflexivity.
Qed.

Lemma map_on_ok (event layer : jsstring) (h : Handler) (w : World) (m : MapObj) :
  map w = Some m ->
  map_on event layer h w
  = (Ok tt, set_map (set_listeners (listeners m ++ [(event, layer, h)])
                       (log_call (COn event layer) m)) w).
Proof.
  intros Hmap. unfold map_on, on_map. rewrite Hmap. reflexivity.
Qed.

(** On a style that has neither the source nor any of the three layers,
    every call of the render succeeds. *)
Lemma addGeoJSONToMap_fresh (w : World) (m : MapObj) :
  map w = Some m ->
  has_source (lit "ip-locations") m = false ->
  has_layer (lit "clusters") m = false ->
  has_layer (lit "cluster-count") m = false ->
  has_layer (lit "unclustered-point") m = false ->
  addGeoJSONToMap w = set_map (render_on (ipLocationData w) m) w.
Proof.
  intros Hmap Hs H1 H2 H3.
  unfold addGeoJSONToMap, try_catch, addGeoJSONToMap_body, addMapInteractions, bind.
  rewrite (addSource_ok (ip_locations_source (ipLocationData w)) w m Hmap Hs).
  erewrite addLayer_ok; [| reflexivity | exact H1].
  erewrite addLayer_ok; [| reflexivity |].
  2:{ unfold has_layer in *. cbn [layers set_layers set_sources log_call].
      change (layer_id cluster_count_layer) with (lit "cluster-count").
      rewrite existsb_app, H2. reflexivity. }
  erewrite addLayer_ok; [| reflexivity |].
  2:{ unfold has_layer in *. cbn [layers set_layers set_sources log_call].
      change (layer_id unclustered_point_layer) with (lit "unclustered-point").
      rewrite !existsb_app, H3. reflexivity. }
  repeat (erewrite map_on_ok; [| reflexivity]).
  rewrite !set_map_set_map. f_equal.
  apply MapObj_ext;
    cbn [style camera sources layers listeners once_styledata popups cursor
         calls set_sources set_layers set_listeners log_call render_on
         render_calls];
    rewrite <- ?app_assoc; reflexivity.
Qed.

Lemma addGeoJSONToMap_duplicate (w : World) (m : MapObj) :
  map w = Some m ->
  has_source (lit "ip-locations") m = true ->
  addGeoJSONToMap w
  = showErrorMessage (lit "Failed to display IP locations on map.")
      (set_map (log_call (CAddSource (lit "ip-locations")) m) w).
Proof.
  intros Hmap Hdup.
  destruct (addSource_duplicate (ip_locations_source (ipLocationData w)) w m
              Hmap Hdup) as [e He].
  unfold addGeoJSONToMap, try_catch, addGeoJSONToMap_body, bind.
  rewrite He. reflexivity.
Qed.

Lemma showErrorMessage_map (e : jsstring) (w : World) :
  map (showErrorMessage e w) = map w /\
  ipLocationData (showErrorMessage e w) = ipLocationData w.
Proof.
  unfold showErrorMessage. destruct (ip_count w); split; reflexivity.
Qed.

Lemma same_view_refl (m : MapObj) : same_view m m.
Proof.
  repeat split. exists []. symmetry. apply app_nil_r.
Qed.

Lemma same_view_trans (a b c : MapObj) :
  same_view a b -> same_view b c -> same_view a c.
Proof.
  intros (Hc1 & Hs1 & Ho1 & l1 & Hl1) (Hc2 & Hs2 & Ho2 & l2 & Hl2).
  repeat split; try congruence.
  exists (l1 ++ l2). rewrite Hl2, Hl1. symmetry. apply app_assoc.
Qed.

Lemma same_view_log (c : Call) (m : MapObj) : same_view m (log_call c m).
Proof.
  repeat split. exists [c]. reflexivity.
Qed.

Lemma keeps_sources_bind (c1 c2 : M unit) :
  keeps_sources c1 -> keeps_sources c2 ->
  keeps_sources (bind c1 (fun _ => c2)).
Proof.
  intros H1 H2 w m Hmap.
  destruct (H1 w m Hmap) as (m1 & Hm1 & Hs1 & Hv1 & Hd1).
  unfold run, bind in *. destruct (c1 w) as [[[] | e] w1]; cbn [snd] in *.
  - destruct (H2 w1 m1 Hm1) as (m2 & Hm2 & Hs2 & Hv2 & Hd2).
    unfold run in *.
    exists m2. split; [exact Hm2 |]. split; [congruence |].
    split; [exact (same_view_trans _ _ _ Hv1 Hv2) | congruence].
  - exists m1. auto.
Qed.

Lemma keeps_sources_addLayer (l : Layer) : keeps_sources (addLayer l).
Proof.
  intros w m Hmap. unfold run, addLayer. rewrite Hmap.
  destruct (has_layer (layer_id l) m); cbn [snd].
  - unfold on_map_error.
    destruct (showErrorMessage_map
                (lit "Map error: " ++ lit "Layer " ++ quoted (layer_id l)
                 ++ lit " already exists on this map.")
                (set_map (log_call (CAddLayer (layer_id l)) m) w)) as [Hm Hd].
    eexists. split; [rewrite Hm; reflexivity |]. split; [reflexivity |].
    split; [apply same_view_log |]. rewrite Hd. reflexivity.
  - eexists. split; [reflexivity |]. split; [reflexivity |].
    split; [| reflexivity].
    repeat split. eexists. reflexivity.
Qed.

Lemma keeps_sources_map_on (event layer : jsstring) (h : Handler) :
  keeps_sources (map_on event layer h).
Proof.
  intros w m Hmap. unfold run. rewrite (map_on_ok event layer h w m Hmap).
  eexists. split; [reflexivity |]. split; [reflexivity |].
  split; [| reflexivity].
  repeat split. eexists. reflexivity.
Qed.

Lemma keeps_sources_layers_and_interactions :
  keeps_sources
    (bind (addLayer clusters_layer) (fun _ =>
     bind (addLayer cluster_count_layer) (fun _ =>
     bind (addLayer unclustered_point_layer) (fun _ =>
     addMapInteractions)))).
Proof.
  repeat apply keeps_sources_bind;
    first [apply keeps_sources_addLayer | apply keeps_sources_map_on].
Qed.

(** After a render the source is registered, whatever was there before;
    the view is the one before, with [addSource] as the first further
    call. *)
Lemma addGeoJSONToMap_registers_source (w : World) (m : MapObj) :
  map w = Some m ->
  exists m1,
    map (addGeoJSONToMap w) = Some m1 /\
    has_source (lit "ip-locations") m1 = true /\
    ipLocationData (addGeoJSONToMap w) = ipLocationData w /\
    camera m1 = camera m /\ style m1 = style m /\
    once_styledata m1 = once_styledata m /\
    exists rest, calls m1 = calls m ++ CAddSource (lit "ip-locations") :: rest.
Proof.
  intros Hmap.
  destruct (has_source (lit "ip-locations") m) eqn:Hsrc.
  - rewrite (addGeoJSONToMap_duplicate w m Hmap Hsrc).
    destruct (showErrorMessage_map (lit "Failed to display IP locations on map.")
                (set_map (log_call (CAddSource (lit "ip-locations")) m) w))
      as [Hm Hd].
    rewrite Hm, Hd. eexists. split; [reflexivity |]. split; [exact Hsrc |].
    repeat (split; [reflexivity |]). exists []. reflexivity.
  - set (m0 := set_sources (sources m ++ [ip_locations_source (ipLocationData w)])
                 (log_call (CAddSource (lit "ip-locations")) m)).
    set (w0 := set_map m0 w).
    assert (Ebody :
      addGeoJSONToMap_body w
      = bind (addLayer clusters_layer) (fun _ =>
        bind (addLayer cluster_count_layer) (fun _ =>
        bind (addLayer unclustered_point_layer) (fun _ =>
        addMapInteractions))) w0).
    { unfold addGeoJSONToMap_body. unfold bind at 1.
      rewrite (addSource_ok (ip_locations_source (ipLocationData w)) w m Hmap Hsrc).
      reflexivity. }
    destruct (keeps_sources_layers_and_interactions w0 m0 eq_refl)
      as (m1 & Hm1 & Hs1 & (Hc1 & Hst1 & Ho1 & added & Hadd) & Hd1).
    unfold run in *.
    assert (Hhas : has_source (lit "ip-locations") m1 = true).
    { unfold has_source. rewrite Hs1. unfold m0. cbn [sources set_sources].
      rewrite existsb_app. cbn [existsb]. rewrite orb_true_iff. right.
      reflexivity. }
    assert (Hcalls : calls m1 = calls m ++ CAddSource (lit "ip-locations") :: added).
    { rewrite Hadd. unfold m0. cbn [calls set_sources log_call].
      rewrite <- app_assoc. reflexivity. }
    unfold addGeoJSONToMap, try_catch. rewrite Ebody.
    destruct (bind _ _ w0) as [[[] | e] w1]; cbn [snd] in *.
    + exists m1. repeat (split; [assumption |]). exists added. exact Hcalls.
    + destruct (showErrorMessage_map
                  (lit "Failed to display IP locations on map.") w1) as [Hm Hd].
      rewrite Hm, Hd. exists m1. repeat (split; [assumption |]).
      exists added. exact Hcalls.
Qed.



(** Listeners registered with [map.on] belong to the map, not to the
    style: the render that follows a style switch registers the six of them
    a second time. *)
Example listeners_after_style_switch :
  let w := loadGeoJSONData (FetchResponse 200 (lit "OK") (Ok one_point_collection))
             ready_world in
  option_map (fun m => length (listeners m)) (map w) = Some 6%nat /\
  option_map (fun m => length (listeners m))
    (map (fire_styledata (changeMapStyle (lit "dark") w))) = Some 12%nat /\
  option_map (fun m => List.map layer_id (layers m))
    (map (fire_styledata (changeMapStyle (lit "dark") w)))
  = Some [lit "clusters"; lit "cluster-count"; lit "unclustered-point"].
Proof. repeat split. Qed.

(** The second render in succession reports the duplicate source on the
    status line. *)
Example second_render_reports_failure :
  option_map textContent
    (ip_count (addGeoJSONToMap (addGeoJSONToMap ready_world)))
  = Some (emoji_cross
          ++ lit " Error: Failed to display IP locations on map.").
Proof. reflexivity. Qed.

(** ** Style switch *)

Ltac run_map_calls :=
  cbv beta iota zeta delta
    [try_catch run bind ret lift snd fst fold_left
     map_getCenter map_getZoom map_getPitch map_getBearing
     map_setCenter map_setZoom map_setPitch map_setBearing
     map_setStyle map_once_styledata on_map
     set_map set_camera set_center set_zoom set_pitch set_bearing
     set_once_styledata replace_style log_call
     map ipLocationData ip_count controls ui_listeners
     style camera sources layers listeners once_styledata popups cursor calls
     center zoom pitch bearing].

Lemma changeMapStyle_known (k : jsstring) (v : StyleVal) (w : World) (m : MapObj) :
  map w = Some m -> mapStyles_get k = Some v ->
  exists m1,
    changeMapStyle k w = set_map m1 w /\
    style m1 = v /\ camera m1 = camera m /\
    sources m1 = [] /\ layers m1 = [] /\
    listeners m1 = listeners m /\
    once_styledata m1 = once_styledata m ++ [camera m] /\
    popups m1 = popups m /\ cursor m1 = cursor m /\
    calls m1 = calls m ++ switch_calls v.
Proof.
  intros Hmap Hget. unfold changeMapStyle. rewrite Hmap, Hget.
  destruct w as [mp d ic cs ul]. cbn [map] in Hmap. subst mp.
  destruct m as [st [ce zo pi be] srcs lys lis once pops cur cls].
  run_map_calls.
  eexists. split; [reflexivity |].
  run_map_calls. unfold switch_calls.
  rewrite <- !app_assoc. repeat split.
Qed.


(** The closure fired on any map: the camera becomes the captured one, the
    four setters are called, and the renderer is called exactly when data is
    held. *)
Lemma restore_after_style_general (captured : Camera) (w : World) (m : MapObj) :
  map w = Some m ->
  exists m2,
    map (restore_after_style captured w) = Some m2 /\
    camera m2 = captured /\
    style m2 = style m /\ once_styledata m2 = once_styledata m /\
    ipLocationData (restore_after_style captured w) = ipLocationData w /\
    exists tail,
      calls m2 = calls m ++ restore_calls captured ++ tail /\
      (if truthy (ipLocationData w)
       then exists rest, tail = CAddSource (lit "ip-locations") :: rest
       else tail = []).
Proof.
  intros Hmap. unfold restore_after_style.
  destruct w as [mp d ic cs ul]. cbn [map] in Hmap. subst mp.
  destruct m as [st cam srcs lys lis once pops cur cls].
  destruct captured as [ce zo pi be].
  run_map_calls. unfold restore_calls. cbn [center zoom pitch bearing].
  destruct (truthy d).
  - match goal with
    | |- context [addGeoJSONToMap ?w0] =>
        destruct (addGeoJSONToMap_registers_source w0 _ eq_refl)
          as (m2 & Hm2 & _ & Hd & Hc & Hs & Ho & rest & Hcalls)
    end.
    cbn [camera style once_styledata calls ipLocationData]
      in Hd, Hc, Hs, Ho, Hcalls.
    exists m2. repeat (split; [assumption |]).
    exists (CAddSource (lit "ip-locations") :: rest).
    split; [| exists rest; reflexivity].
    etransitivity; [exact Hcalls |].
    rewrite <- !app_assoc. reflexivity.
  - eexists. split; [reflexivity |].
    cbn [camera style once_styledata calls ipLocationData].
    repeat (split; [reflexivity |]).
    exists []. split; [| reflexivity].
    rewrite <- !app_assoc. reflexivity.
Qed.

(** Closures left pending by earlier switches keep the map in place, with
    its style and the loaded data. *)
Lemma fire_pending (pending : list Camera) :
  forall w m,
    map w = Some m ->
    exists m',
      map (fold_left (fun w' captured => restore_after_style captured w')
             pending w) = Some m' /\
      style m' = style m /\ once_styledata m' = once_styledata m /\
      ipLocationData
        (fold_left (fun w' captured => restore_after_style captured w')
           pending w) = ipLocationData w /\
      exists added, calls m' = calls m ++ added.
Proof.
  induction pending as [| c pending IH]; intros w m Hmap.
  - exists m. repeat (split; [assumption || reflexivity |]).
    exists []. symmetry. apply app_nil_r.
  - cbn [fold_left].
    destruct (restore_after_style_general c w m Hmap)
      as (m1 & Hm1 & _ & Hs1 & Ho1 & Hd1 & tail & Hcalls1 & _).
    destruct (IH _ m1 Hm1) as (m2 & Hm2 & Hs2 & Ho2 & Hd2 & added & Hcalls2).
    exists m2. split; [exact Hm2 |].
    split; [congruence |]. split; [congruence |]. split; [congruence |].
    exists ((restore_calls c ++ tail) ++ added).
    rewrite Hcalls2, Hcalls1. rewrite <- !app_assoc. reflexivity.
Qed.




(** ** Loading *)

Lemma load_rejected (message : jsstring) (w : World) :
  loadGeoJSONData (FetchRejected message) w
  = loadGeoJSONData_catch message (loading_shown w).
Proof. reflexivity. Qed.

Lemma load_http_error (st : N) (txt : jsstring) (json : Res Val) (w : World) :
  response_ok st = false ->
  loadGeoJSONData (FetchResponse st txt json) w
  = loadGeoJSONData_catch (http_error_message st txt) (loading_shown w).
Proof.
  intros H. unfold loadGeoJSONData, try_catch, loadGeoJSONData_body, bind, lift.
  rewrite H. reflexivity.
Qed.

Lemma load_syntax_error (st : N) (txt message : jsstring) (w : World) :
  response_ok st = true ->
  loadGeoJSONData (FetchResponse st txt (Throw message)) w
  = loadGeoJSONData_catch message (loading_shown w).
Proof.
  intros H. unfold loadGeoJSONData, try_catch, loadGeoJSONData_body, bind, lift.
  rewrite H. reflexivity.
Qed.

Lemma load_missing_features (st : N) (txt : jsstring) (v : Val) (w : World) :
  response_ok st = true ->
  truthy v = false \/ truthy (get_prop v (lit "features")) = false ->
  loadGeoJSONData (FetchResponse st txt (Ok v)) w
  = loadGeoJSONData_catch
      (lit "Invalid GeoJSON structure - missing features array")
      (set_ipLocationData v (loading_shown w)).
Proof.
  intros H Hmiss.
  unfold loadGeoJSONData, try_catch, loadGeoJSONData_body, bind, lift.
  rewrite H. cbn [negb ipLocationData set_ipLocationData].
  assert (E : negb (truthy v) || negb (truthy (get_prop v (lit "features"))) = true).
  { destruct Hmiss as [-> | ->]; [reflexivity | apply orb_true_r]. }
  rewrite E. reflexivity.
Qed.

Lemma load_empty_features (st : N) (txt : jsstring) (v : Val) (w : World) :
  response_ok st = true ->
  truthy v = true ->
  truthy (get_prop v (lit "features")) = true ->
  strict_eq_zero (get_prop (get_prop v (lit "features")) (lit "length")) = true ->
  loadGeoJSONData (FetchResponse st txt (Ok v)) w
  = loadGeoJSONData_catch (lit "GeoJSON file contains no features")
      (set_ipLocationData v (loading_shown w)).
Proof.
  intros H Hv Hf Hz.
  unfold loadGeoJSONData, try_catch, loadGeoJSONData_body, bind, lift.
  rewrite H. cbn [negb ipLocationData set_ipLocationData].
  rewrite Hv, Hf, Hz. reflexivity.
Qed.

Lemma load_success (st : N) (txt : jsstring) (v : Val) (w : World) :
  response_ok st = true ->
  truthy v = true ->
  truthy (get_prop v (lit "features")) = true ->
  strict_eq_zero (get_prop (get_prop v (lit "features")) (lit "length")) = false ->
  loadGeoJSONData (FetchResponse st txt (Ok v)) w
  = addGeoJSONToMap
      (updateIPCount (get_prop (get_prop v (lit "features")) (lit "length"))
         (set_ipLocationData v (loading_shown w))).
Proof.
  intros H Hv Hf Hz.
  unfold loadGeoJSONData, try_catch, loadGeoJSONData_body, bind, lift.
  rewrite H. cbn [negb ipLocationData set_ipLocationData].
  rewrite Hv, Hf, Hz. reflexivity.
Qed.

Lemma updateIPCount_keeps (count : Val) (w : World) :
  map (updateIPCount count w) = map w /\
  ipLocationData (updateIPCount count w) = ipLocationData w.
Proof.
  unfold updateIPCount. destruct (ip_count w); [destruct count |]; split; reflexivity.
Qed.

Lemma loadGeoJSONData_catch_keeps (message : jsstring) (w : World) :
  map (loadGeoJSONData_catch message w) = map w /\
  ipLocationData (loadGeoJSONData_catch message w) = ipLocationData w.
Proof.
  unfold loadGeoJSONData_catch.
  destruct (includes (lit "404") message);
    [| destruct (includes (lit "Failed to fetch") message)];
    apply showErrorMessage_map.
Qed.

Lemma addGeoJSONToMap_keeps_data (w : World) :
  ipLocationData (addGeoJSONToMap w) = ipLocationData w.
Proof.
  destruct (map w) as [m |] eqn:Hmap.
  - destruct (addGeoJSONToMap_registers_source w m Hmap) as (_ & _ & _ & H & _).
    exact H.
  - unfold addGeoJSONToMap, try_catch, addGeoJSONToMap_body, bind, addSource, on_map.
    rewrite Hmap. apply showErrorMessage_map.
Qed.

(** A load that fails before the body is parsed leaves the stored data
    alone. *)
Lemma load_failure_before_parse_keeps_data (w : World) :
  (forall message,
      ipLocationData (loadGeoJSONData (FetchRejected message) w)
      = ipLocationData w) /\
  (forall st txt json,
      response_ok st = false ->
      ipLocationData (loadGeoJSONData (FetchResponse st txt json) w)
      = ipLocationData w) /\
  (forall st txt message,
      ipLocationData (loadGeoJSONData (FetchResponse st txt (Throw message)) w)
      = ipLocationData w).
Proof.
  assert (Hload : ipLocationData (loading_shown w) = ipLocationData w)
    by apply updateIPCount_keeps.
  split; [| split].
  - intros message. rewrite load_rejected.
    rewrite (proj2 (loadGeoJSONData_catch_keeps _ _)). exact Hload.
  - intros st txt json H. rewrite (load_http_error st txt json w H).
    rewrite (proj2 (loadGeoJSONData_catch_keeps _ _)). exact Hload.
  - intros st txt message. destruct (response_ok st) eqn:H.
    + rewrite (load_syntax_error st txt message w H).
      rewrite (proj2 (loadGeoJSONData_catch_keeps _ _)). exact Hload.
    + rewrite (load_http_error st txt _ w H).
      rewrite (proj2 (loadGeoJSONData_catch_keeps _ _)). exact Hload.
Qed.

(** Once the body parses, the parsed value is what the global holds after
    the load, whether or not it passes validation. *)
Lemma load_stores_whatever_parses (st : N) (txt : jsstring) (v : Val) (w : World) :
  response_ok st = true ->
  ipLocationData (loadGeoJSONData (FetchResponse st txt (Ok v)) w) = v.
Proof.
  intros H.
  destruct (truthy v) eqn:Hv.
  2:{ rewrite (load_missing_features st txt v w H (or_introl Hv)).
      rewrite (proj2 (loadGeoJSONData_catch_keeps _ _)). reflexivity. }
  destruct (truthy (get_prop v (lit "features"))) eqn:Hf.
  2:{ rewrite (load_missing_features st txt v w H (or_intror Hf)).
      rewrite (proj2 (loadGeoJSONData_catch_keeps _ _)). reflexivity. }
  destruct (strict_eq_zero (get_prop (get_prop v (lit "features")) (lit "length")))
    eqn:Hz.
  - rewrite (load_empty_features st txt v w H Hv Hf Hz).
    rewrite (proj2 (loadGeoJSONData_catch_keeps _ _)). reflexivity.
  - rewrite (load_success st txt v w H Hv Hf Hz).
    rewrite addGeoJSONToMap_keeps_data.
    rewrite (proj2 (updateIPCount_keeps _ _)). reflexivity.
Qed.

Example load_one_point :
  let w := loadGeoJSONData (FetchResponse 200 (lit "OK") (Ok one_point_collection))
             ready_world in
  ipLocationData w = one_point_collection /\
  option_map textContent (ip_count w)
  = Some (emoji_chart ++ lit " 1 unique IP locations loaded") /\
  option_map (fun m => List.map layer_id (layers m)) (map w)
  = Some [lit "clusters"; lit "cluster-count"; lit "unclustered-point"].
Proof. repeat split. Qed.

(** The layer a successful load registers under [clusters] is
    [clusters_layer]. *)
Example load_registers_clusters_layer :
  let w := loadGeoJSONData (FetchResponse 200 (lit "OK") (Ok one_point_collection))
             ready_world in
  option_map
    (fun m => find (fun l => jsstring_eqb (lit "clusters") (layer_id l)) (layers m))
    (map w)
  = Some (Some clusters_layer).
Proof. reflexivity. Qed.

(** C3, evaluated on a response whose body parses to a collection with an
    empty [features] array, on the page where nothing was loaded before:
    the load reports the error, yet the global no longer holds [null] but
    the rejected document, and a later style switch hands that document to
    the renderer. *)
Theorem load_stores_data_before_validation :
  let w := loadGeoJSONData (FetchResponse 200 (lit "OK") (Ok empty_collection))
             ready_world in
  ipLocationData ready_world = VNull /\
  option_map textContent (ip_count w)
  = Some (emoji_cross
          ++ lit " Error: Failed to load IP location data: GeoJSON file contains no features") /\
  ipLocationData w = empty_collection /\
  ipLocationData w <> ipLocationData ready_world /\
  option_map (fun m => List.map source_data (sources m))
    (map (fire_styledata (changeMapStyle (lit "dark") w)))
  = Some [empty_collection].
Proof.
  cbv zeta. split; [reflexivity |]. split; [reflexivity |].
  split; [reflexivity |]. split; [discriminate |]. reflexivity.
Qed.

(** The same happens when the [features] member is missing. *)
Example load_stores_document_without_features :
  let w := loadGeoJSONData (FetchResponse 200 (lit "OK") (Ok no_features_document))
             ready_world in
  option_map textContent (ip_count w)
  = Some (emoji_cross
          ++ lit " Error: Failed to load IP location data: Invalid GeoJSON structure - missing features array") /\
  ipLocationData w = no_features_document.
Proof. split; reflexivity. Qed.

(** A [features] member that is truthy but not an array has no [length]
    equal to zero, so it passes both tests: no error is shown, and the
    status text is what the DOM stores for [undefined]. *)
Example load_accepts_non_array_features :
  let body := VObj [ (lit "features", VNum 5) ] in
  let w := loadGeoJSONData (FetchResponse 200 (lit "OK") (Ok body)) ready_world in
  ip_count w = Some {| textContent := []; color := lit "#3498db" |} /\
  ipLocationData w = body /\
  option_map (fun m => List.map source_data (sources m)) (map w) = Some [body].
Proof. repeat split. Qed.

(** ** Error messages of the load *)

Lemma showErrorMessage_text (message : jsstring) (w : World) (el : StatusEl) :
  ip_count w = Some el ->
  ip_count (showErrorMessage message w)
  = Some {| textContent := emoji_cross ++ lit " Error: " ++ message;
            color := lit "#e74c3c" |}.
Proof. intros H. unfold showErrorMessage. rewrite H. reflexivity. Qed.

Lemma loading_shown_status (w : World) (el : StatusEl) :
  ip_count w = Some el ->
  exists el', ip_count (loading_shown w) = Some el'.
Proof.
  intros H. unfold loading_shown, updateIPCount. rewrite H. eexists. reflexivity.
Qed.







(* ================================================================== *)
(** * Part III: further properties *)
(* ================================================================== *)

(** ** What each handler leaves alone *)

Lemma keeps_layers_of_eq (w w' : World) :
  map w' = map w /\ ipLocationData w' = ipLocationData w -> keeps_layers w w'.
Proof.
  intros [Hm Hd]. unfold keeps_layers. rewrite Hm. split; [exact Hd |].
  destruct (map w); auto.
Qed.

Lemma keeps_layers_refl (w : World) : keeps_layers w w.
Proof. apply keeps_layers_of_eq. split; reflexivity. Qed.

Lemma keeps_layers_trans (a b c : World) :
  keeps_layers a b -> keeps_layers b c -> keeps_layers a c.
Proof.
  unfold keeps_layers. intros [Hd1 H1] [Hd2 H2]. split; [congruence |].
  destruct (map a), (map b), (map c); try tauto.
  destruct H1 as (? & ? & ?), H2 as (? & ? & ?). repeat split; congruence.
Qed.

Lemma keeps_layers_well_formed (w w' : World) :
  keeps_layers w w' -> well_formed w -> well_formed w'.
Proof.
  unfold keeps_layers, well_formed, blank_or_rendered, listener_sets.
  intros [_ H]. destruct (map w) as [m |], (map w') as [m' |]; try tauto.
  destruct H as (Hs & Hl & Hli). rewrite Hs, Hl, Hli. tauto.
Qed.

Lemma run_on_map_keeps_layers {A} (f : MapObj -> Res A * MapObj) (w : World) :
  (forall m, sources (snd (f m)) = sources m /\
             layers (snd (f m)) = layers m /\
             listeners (snd (f m)) = listeners m) ->
  keeps_layers w (run (on_map f) w).
Proof.
  intros Hf. unfold run, on_map, keeps_layers.
  destruct (map w) as [m |] eqn:Hmap.
  - specialize (Hf m). destruct (f m) as [r m'].
    cbn [snd map set_map ipLocationData] in *. split; [reflexivity | exact Hf].
  - cbn [snd]. rewrite Hmap. split; [reflexivity | exact I].
Qed.

Lemma try_catch_ignore (body : M unit) (w : World) :
  try_catch body (fun _ w' => w') w = run body w.
Proof.
  unfold try_catch, run. destruct (body w) as [[[] | e] w']; reflexivity.
Qed.

Lemma addGeoJSONToMap_no_map (w : World) :
  map w = None ->
  addGeoJSONToMap w
  = showErrorMessage (lit "Failed to display IP locations on map.") w.
Proof.
  intros Hmap.
  unfold addGeoJSONToMap, try_catch, addGeoJSONToMap_body, bind, addSource, on_map.
  rewrite Hmap. reflexivity.
Qed.

Lemma blank_has_nothing (m : MapObj) (id : jsstring) :
  sources m = [] -> layers m = [] ->
  has_source id m = false /\ has_layer id m = false.
Proof.
  intros Hs Hl. unfold has_source, has_layer. rewrite Hs, Hl. split; reflexivity.
Qed.

Lemma listener_sets_succ (k : nat) (l : list (jsstring * jsstring * Handler)) :
  l = concat (repeat interaction_listeners k) ->
  l ++ interaction_listeners = concat (repeat interaction_listeners (S k)).
Proof.
  intros ->. cbn [repeat]. rewrite repeat_cons, concat_app. cbn [concat].
  rewrite app_nil_r. reflexivity.
Qed.

Lemma addGeoJSONToMap_well_formed (w : World) :
  well_formed w -> well_formed (addGeoJSONToMap w).
Proof.
  intros Hinv. destruct (map w) as [m |] eqn:Hmap.
  - unfold well_formed in Hinv. rewrite Hmap in Hinv.
    destruct Hinv as [[[Hs Hl] | (data & Hs & Hl)] (k & Hk & Hone)].
    + rewrite (addGeoJSONToMap_fresh w m Hmap);
        try (apply (blank_has_nothing m _ Hs Hl)).
      unfold well_formed. cbn [map set_map]. split.
      * right. exists (ipLocationData w). cbn [sources layers render_on].
        rewrite Hs, Hl. split; reflexivity.
      * exists (S k). split; [| intros _; lia].
        unfold listener_sets. cbn [listeners render_on].
        apply (listener_sets_succ k), Hk.
    + assert (Hhas : has_source (lit "ip-locations") m = true)
        by (unfold has_source; rewrite Hs; reflexivity).
      rewrite (addGeoJSONToMap_duplicate w m Hmap Hhas).
      apply keeps_layers_well_formed
        with (w := set_map (log_call (CAddSource (lit "ip-locations")) m) w).
      * apply keeps_layers_of_eq, showErrorMessage_map.
      * unfold well_formed. cbn [map set_map]. split.
        -- right. exists data. auto.
        -- exists k. split; [exact Hk | exact Hone].
  - rewrite (addGeoJSONToMap_no_map w Hmap).
    apply keeps_layers_well_formed with (w := w); [| exact Hinv].
    apply keeps_layers_of_eq, showErrorMessage_map.
Qed.

Lemma changeMapStyle_well_formed (k : jsstring) (w : World) :
  well_formed w -> well_formed (changeMapStyle k w).
Proof.
  intros Hinv.
  destruct (map w) as [m |] eqn:Hmap.
  - destruct (mapStyles_get k) as [v |] eqn:Hget.
    + destruct (changeMapStyle_known k v w m Hmap Hget)
        as (m1 & E & _ & _ & Hs & Hl & Hli & _).
      rewrite E. unfold well_formed in *. rewrite Hmap in Hinv.
      cbn [map set_map]. split; [left; auto |].
      destruct Hinv as [_ (n & Hn & _)]. exists n.
      split; [unfold listener_sets in *; congruence | congruence].
    + rewrite (changeMapStyle_undefined_key k w Hget). exact Hinv.
  - unfold changeMapStyle. rewrite Hmap. exact Hinv.
Qed.

Lemma changeMapStyle_keeps_data (k : jsstring) (w : World) :
  ipLocationData (changeMapStyle k w) = ipLocationData w.
Proof.
  destruct (map w) as [m |] eqn:Hmap.
  - destruct (mapStyles_get k) as [v |] eqn:Hget.
    + destruct (changeMapStyle_known k v w m Hmap Hget) as (m1 & E & _).
      rewrite E. reflexivity.
    + rewrite (changeMapStyle_undefined_key k w Hget). reflexivity.
  - unfold changeMapStyle. rewrite Hmap. reflexivity.
Qed.

(** The closure sets the camera, then renders or not. *)
Lemma restore_after_style_eq (captured : Camera) (w : World) (m : MapObj) :
  map w = Some m ->
  exists m',
    sources m' = sources m /\ layers m' = layers m /\
    listeners m' = listeners m /\ popups m' = popups m /\
    camera m' = captured /\
    restore_after_style captured w
    = if truthy (ipLocationData w) then addGeoJSONToMap (set_map m' w)
      else set_map m' w.
Proof.
  intros Hmap. unfold restore_after_style.
  destruct w as [mp d ic cs ul]. cbn [map] in Hmap. subst mp.
  destruct m as [st cam srcs lys lis once pops cur cls].
  destruct captured as [ce zo pi be].
  run_map_calls.
  destruct (truthy d); eexists; repeat split; reflexivity.
Qed.

Lemma restore_after_style_well_formed (captured : Camera) (w : World) :
  well_formed w -> well_formed (restore_after_style captured w).
Proof.
  intros Hinv. destruct (map w) as [m |] eqn:Hmap.
  - destruct (restore_after_style_eq captured w m Hmap)
      as (m' & Hs & Hl & Hli & _ & _ & E).
    rewrite E.
    assert (Hinv' : well_formed (set_map m' w)).
    { unfold well_formed in *. rewrite Hmap in Hinv. cbn [map set_map].
      unfold blank_or_rendered, listener_sets in *. rewrite Hs, Hl, Hli.
      exact Hinv. }
    destruct (truthy (ipLocationData w));
      [apply addGeoJSONToMap_well_formed |]; exact Hinv'.
  - unfold restore_after_style, run, bind, map_setCenter, on_map.
    rewrite Hmap. cbn [snd]. exact Hinv.
Qed.

Lemma fire_styledata_well_formed (w : World) :
  well_formed w -> well_formed (fire_styledata w).
Proof.
  intros Hinv. unfold fire_styledata.
  destruct (map w) as [m |] eqn:Hmap; [| exact Hinv].
  assert (Hstart : well_formed (set_map (set_once_styledata [] m) w)).
  { unfold well_formed in *. rewrite Hmap in Hinv. exact Hinv. }
  generalize dependent (set_map (set_once_styledata [] m) w).
  induction (once_styledata m) as [| c pending IH]; intros w0 H0; [exact H0 |].
  cbn [fold_left]. apply IH, restore_after_style_well_formed, H0.
Qed.

Lemma fire_styledata_keeps_data (w : World) :
  ipLocationData (fire_styledata w) = ipLocationData w.
Proof.
  unfold fire_styledata. destruct (map w) as [m |] eqn:Hmap; [| reflexivity].
  destruct (fire_pending (once_styledata m)
              (set_map (set_once_styledata [] m) w) _ eq_refl)
    as (_ & _ & _ & _ & Hd & _).
  exact Hd.
Qed.

Lemma loadGeoJSONData_well_formed (o : FetchOutcome) (w : World) :
  well_formed w -> well_formed (loadGeoJSONData o w).
Proof.
  intros Hinv.
  assert (Hcatch : forall message w0,
            well_formed w0 -> well_formed (loadGeoJSONData_catch message w0)).
  { intros message w0.
    apply keeps_layers_well_formed, keeps_layers_of_eq,
      loadGeoJSONData_catch_keeps. }
  assert (Hload : well_formed (loading_shown w)).
  { revert Hinv.
    apply keeps_layers_well_formed, keeps_layers_of_eq, updateIPCount_keeps. }
  destruct o as [message | st txt [v | message]].
  - rewrite load_rejected. apply Hcatch, Hload.
  - destruct (response_ok st) eqn:Hok.
    2:{ rewrite (load_http_error st txt _ w Hok). apply Hcatch, Hload. }
    assert (Hset : well_formed (set_ipLocationData v (loading_shown w)))
      by exact Hload.
    destruct (truthy v) eqn:Hv.
    2:{ rewrite (load_missing_features st txt v w Hok (or_introl Hv)).
        apply Hcatch, Hset. }
    destruct (truthy (get_prop v (lit "features"))) eqn:Hf.
    2:{ rewrite (load_missing_features st txt v w Hok (or_intror Hf)).
        apply Hcatch, Hset. }
    destruct (strict_eq_zero (get_prop (get_prop v (lit "features")) (lit "length")))
      eqn:Hz.
    + rewrite (load_empty_features st txt v w Hok Hv Hf Hz). apply Hcatch, Hset.
    + rewrite (load_success st txt v w Hok Hv Hf Hz).
      apply addGeoJSONToMap_well_formed.
      revert Hset.
      apply keeps_layers_well_formed, keeps_layers_of_eq, updateIPCount_keeps.
  - destruct (response_ok st) eqn:Hok.
    + rewrite (load_syntax_error st txt message w Hok). apply Hcatch, Hload.
    + rewrite (load_http_error st txt _ w Hok). apply Hcatch, Hload.
Qed.

Lemma createPopup_keeps_layers (coordinates : Q * Q) (properties : Properties)
  (w : World) :
  keeps_layers w (createPopup coordinates properties w).
Proof.
  unfold createPopup. rewrite try_catch_ignore.
  apply run_on_map_keeps_layers. intros m. repeat split.
Qed.

Lemma on_cluster_click_keeps_layers (e : ClusterClick) (w : World) :
  keeps_layers w (on_cluster_click e w).
Proof.
  assert (Herr : forall w0, keeps_layers w w0 ->
                            keeps_layers w (on_window_error w0)).
  { intros w0 H0. eapply keeps_layers_trans; [exact H0 |].
    apply keeps_layers_of_eq, showErrorMessage_map. }
  assert (Hset : forall m m', map w = Some m ->
            sources m' = sources m -> layers m' = layers m ->
            listeners m' = listeners m -> keeps_layers w (set_map m' w)).
  { intros m m' Hmap Hs Hl Hli. unfold keeps_layers. rewrite Hmap.
    cbn [map set_map ipLocationData]. auto. }
  unfold on_cluster_click, bind, on_map, map_easeTo, ret, throw.
  destruct (map w) as [m |] eqn:Hmap.
  2:{ apply Herr, keeps_layers_refl. }
  cbn [map set_map].
  destruct (rendered_clusters e) as [| [clusterId coordinates] rest].
  { apply Herr, (Hset m); reflexivity. }
  cbn [map set_map].
  destruct (has_source (lit "ip-locations") (log_call CQueryRenderedFeatures m)).
  - destruct (expansion_zoom e) as [z | err]; cbn [map set_map];
      rewrite ?set_map_set_map; apply (Hset m); reflexivity.
  - rewrite ?set_map_set_map. apply Herr, (Hset m); reflexivity.
Qed.

Lemma run_handler_keeps_layers (fuel : nat) (h : Handler) (e : MapMouseEvent)
  (w w' : World) :
  run_handler fuel h e w = Some w' -> keeps_layers w w'.
Proof.
  destruct h; cbn [run_handler]; intros H.
  - injection H as <-. apply on_cluster_click_keeps_layers.
  - unfold on_point_click in H.
    destruct (wrap_coordinates fuel _ _); [| discriminate].
    injection H as <-. apply createPopup_keeps_layers.
  - injection H as <-. apply run_on_map_keeps_layers. intros m. repeat split.
  - injection H as <-. apply run_on_map_keeps_layers. intros m. repeat split.
Qed.

Lemma fire_listeners_keeps_layers (fuel : nat) (event layer : jsstring)
  (e : MapMouseEvent) (ls : list (jsstring * jsstring * Handler)) :
  forall w w',
    fire_listeners fuel event layer e ls w = Some w' -> keeps_layers w w'.
Proof.
  induction ls as [| [[event' layer'] h] rest IH]; intros w w' H;
    cbn [fire_listeners] in H.
  - injection H as <-. apply keeps_layers_refl.
  - destruct (jsstring_eqb event event' && jsstring_eqb layer layer').
    + destruct (run_handler fuel h e w) as [w1 |] eqn:Hrun; [| discriminate].
      eapply keeps_layers_trans;
        [exact (run_handler_keeps_layers fuel h e w w1 Hrun) | exact (IH w1 w' H)].
    + exact (IH w w' H).
Qed.

Lemma fire_layer_event_keeps_layers (fuel : nat) (event layer : jsstring)
  (e : MapMouseEvent) (w w' : World) :
  fire_layer_event fuel event layer e w = Some w' -> keeps_layers w w'.
Proof.
  unfold fire_layer_event. destruct (map w) as [m |] eqn:Hmap.
  2:{ intros H. injection H as <-. apply keeps_layers_refl. }
  assert (Hfirst : forall w1,
            (if has_layer layer m
             then fire_listeners fuel event layer e (listeners m) w
             else Some w) = Some w1 -> keeps_layers w w1).
  { intros w1. destruct (has_layer layer m).
    - apply fire_listeners_keeps_layers.
    - intros H. injection H as <-. apply keeps_layers_refl. }
  destruct (if has_layer layer m then _ else _) as [w1 |]; [| discriminate].
  specialize (Hfirst w1 eq_refl).
  destruct (jsstring_eqb event (lit "click")); intros H; injection H as <-.
  - eapply keeps_layers_trans; [exact Hfirst |].
    apply run_on_map_keeps_layers. intros m'. repeat split.
  - exact Hfirst.
Qed.

Lemma zoom_and_reset_keep_layers (w : World) :
  keeps_layers w (zoomInClick w) /\
  keeps_layers w (zoomOutClick w) /\
  keeps_layers w (resetMapView w).
Proof.
  unfold zoomInClick, zoomOutClick, resetMapView.
  destruct (map w) eqn:Hmap.
  - rewrite try_catch_ignore.
    repeat split; apply run_on_map_keeps_layers; intros m0; repeat split.
  - repeat split; apply keeps_layers_refl.
Qed.

Lemma run_ui_handler_well_formed (h : UiHandler) (value : jsstring) (w : World) :
  well_formed w -> well_formed (run_ui_handler h value w).
Proof.
  intros Hinv. destruct (zoom_and_reset_keep_layers w) as (Hin & Hout & Hreset).
  destruct h; cbn [run_ui_handler].
  - apply changeMapStyle_well_formed, Hinv.
  - exact (keeps_layers_well_formed _ _ Hin Hinv).
  - exact (keeps_layers_well_formed _ _ Hout Hinv).
  - exact (keeps_layers_well_formed _ _ Hreset Hinv).
Qed.

Lemma run_ui_handler_keeps_data (h : UiHandler) (value : jsstring) (w : World) :
  ipLocationData (run_ui_handler h value w) = ipLocationData w.
Proof.
  destruct (zoom_and_reset_keep_layers w) as ([Hin _] & [Hout _] & [Hreset _]).
  destruct h; cbn [run_ui_handler]; auto using changeMapStyle_keeps_data.
Qed.

Lemma dispatch_ui_well_formed (id event value : jsstring) (w : World) :
  well_formed w ->
  well_formed (dispatch_ui id event value w) /\
  ipLocationData (dispatch_ui id event value w) = ipLocationData w.
Proof.
  unfold dispatch_ui. generalize (ui_listeners w) as ls.
  intros ls.
  enough (H : forall w0, well_formed w0 ->
            well_formed
              (fold_left
                 (fun w' l =>
                    let '(id', event', h) := l in
                    if jsstring_eqb id id' && jsstring_eqb event event'
                    then run_ui_handler h value w' else w') ls w0) /\
            ipLocationData
              (fold_left
                 (fun w' l =>
                    let '(id', event', h) := l in
                    if jsstring_eqb id id' && jsstring_eqb event event'
                    then run_ui_handler h value w' else w') ls w0)
            = ipLocationData w0) by (apply H).
  induction ls as [| [[id' event'] h] rest IH]; intros w0 Hinv;
    [split; [exact Hinv | reflexivity] |].
  cbn [fold_left].
  destruct (jsstring_eqb id id' && jsstring_eqb event event').
  - destruct (IH (run_ui_handler h value w0)
                (run_ui_handler_well_formed h value w0 Hinv)) as [H1 H2].
    split; [exact H1 |]. rewrite H2. apply run_ui_handler_keeps_data.
  - apply IH, Hinv.
Qed.

Lemma listen_keeps (id event : jsstring) (h : UiHandler) (w : World) :
  map (listen id event h w) = map w /\
  ipLocationData (listen id event h w) = ipLocationData w /\
  ip_count (listen id event h w) = ip_count w /\
  controls (listen id event h w) = controls w.
Proof.
  unfold listen. destruct (has_control id w); repeat split.
Qed.

Lemma setupEventListeners_keeps (w : World) :
  map (setupEventListeners w) = map w /\
  ipLocationData (setupEventListeners w) = ipLocationData w /\
  ip_count (setupEventListeners w) = ip_count w /\
  controls (setupEventListeners w) = controls w.
Proof.
  unfold setupEventListeners.
  repeat match goal with
         | |- context [listen ?i ?e ?h ?x] =>
             destruct (listen_keeps i e h x) as (-> & -> & -> & ->)
         end.
  repeat split.
Qed.

Lemma onDOMContentLoaded_eq (loaded : bool) (w : World) :
  onDOMContentLoaded loaded w = initializeMap loaded (setupEventListeners w).
Proof. reflexivity. Qed.

Lemma initializeMap_well_formed (loaded : bool) (w : World) :
  well_formed w ->
  well_formed (initializeMap loaded w) /\
  ipLocationData (initializeMap loaded w) = ipLocationData w.
Proof.
  intros Hinv. destruct loaded.
  - split; [| reflexivity]. unfold well_formed. cbn.
    split; [left; split; reflexivity |].
    exists 0%nat. split; [reflexivity | congruence].
  - unfold initializeMap, try_catch, throw.
    destruct (showErrorMessage_map
                (lit "Failed to initialize map: "
                 ++ lit "MapLibre GL JS library not loaded") w) as [Hm Hd].
    split; [| exact Hd].
    apply keeps_layers_well_formed with (w := w); [| exact Hinv].
    apply keeps_layers_of_eq. split; assumption.
Qed.

Lemma step_well_formed (ev : Event) (w w' : World) :
  well_formed w -> step ev w = Some w' -> well_formed w'.
Proof.
  intros IH Hstep. destruct ev; cbn [step] in Hstep.
  - injection Hstep as <-. rewrite onDOMContentLoaded_eq.
    apply initializeMap_well_formed.
    apply keeps_layers_well_formed with (w := w); [| exact IH].
    apply keeps_layers_of_eq.
    destruct (setupEventListeners_keeps w) as (Hm & Hd & _). split; assumption.
  - injection Hstep as <-. apply dispatch_ui_well_formed, IH.
  - injection Hstep as <-.
    apply keeps_layers_well_formed with (w := w); [| exact IH].
    apply keeps_layers_of_eq, showErrorMessage_map.
  - injection Hstep as <-.
    apply keeps_layers_well_formed with (w := w); [| exact IH].
    apply keeps_layers_of_eq, showErrorMessage_map.
  - destruct (map w); [| discriminate]. injection Hstep as <-.
    apply loadGeoJSONData_well_formed, IH.
  - destruct (map w); [| discriminate]. injection Hstep as <-.
    apply keeps_layers_well_formed with (w := w); [| exact IH].
    apply keeps_layers_of_eq, showErrorMessage_map.
  - destruct (map w); [| discriminate]. injection Hstep as <-.
    apply fire_styledata_well_formed, IH.
  - destruct (map w); [| discriminate].
    exact (keeps_layers_well_formed _ _
             (fire_layer_event_keeps_layers _ _ _ _ _ _ Hstep) IH).
Qed.

Lemma reachable_well_formed (w : World) : reachable w -> well_formed w.
Proof.
  induction 1 as [w Hmap | w w' ev Hreach IH Hstep].
  - unfold well_formed. rewrite Hmap. exact I.
  - exact (step_well_formed ev w w' IH Hstep).
Qed.

(** ** Invariants of the page *)


Lemma sample_session_reachable : reachable sample_session.
Proof.
  apply (reach_step sample_switched sample_session EStyleData);
    [| vm_compute; reflexivity].
  apply (reach_step sample_loaded sample_switched
           (EUi (lit "map-style") (lit "change") (lit "dark")));
    [| vm_compute; reflexivity].
  apply (reach_step sample_started sample_loaded
           (EMapLoad (FetchResponse 200 (lit "OK") (Ok one_point_collection))));
    [| vm_compute; reflexivity].
  apply (reach_step initial_world sample_started (EDomContentLoaded true));
    [| vm_compute; reflexivity].
  apply reach_start. reflexivity.
Defined.


Lemma initializeMap_keeps_data (loaded : bool) (w : World) :
  ipLocationData (initializeMap loaded w) = ipLocationData w.
Proof.
  destruct loaded; [reflexivity |].
  unfold initializeMap, try_catch, throw. apply showErrorMessage_map.
Qed.

Lemma dispatch_ui_keeps_data (id event value : jsstring) (w : World) :
  ipLocationData (dispatch_ui id event value w) = ipLocationData w.
Proof.
  unfold dispatch_ui. generalize (ui_listeners w) as ls. intros ls. revert w.
  induction ls as [| [[id' event'] h] rest IH]; intros w; [reflexivity |].
  cbn [fold_left]. rewrite IH.
  destruct (jsstring_eqb id id' && jsstring_eqb event event'); [| reflexivity].
  apply run_ui_handler_keeps_data.
Qed.

(** X2: the loaded data changes only in the load: every other event (page
    start, toolbar events, style switch, [styledata], clicks, hovering, map
    and window errors) leaves [ipLocationData] as it is. *)
Theorem only_load_changes_data (ev : Event) (w w' : World) :
  step ev w = Some w' ->
  (forall o, ev <> EMapLoad o) ->
  ipLocationData w' = ipLocationData w.
Proof.
  intros Hstep Hev. destruct ev; cbn [step] in Hstep.
  - injection Hstep as <-. rewrite onDOMContentLoaded_eq, initializeMap_keeps_data.
    apply setupEventListeners_keeps.
  - injection Hstep as <-. apply dispatch_ui_keeps_data.
  - injection Hstep as <-. apply showErrorMessage_map.
  - injection Hstep as <-. apply showErrorMessage_map.
  - exfalso. exact (Hev o eq_refl).
  - destruct (map w); [| discriminate]. injection Hstep as <-.
    apply showErrorMessage_map.
  - destruct (map w); [| discriminate]. injection Hstep as <-.
    apply fire_styledata_keeps_data.
  - destruct (map w); [| discriminate].
    apply (fire_layer_event_keeps_layers _ _ _ _ _ _ Hstep).
Qed.

Lemma only_load_changes_data_witness :
  step EStyleData sample_switched = Some sample_session /\
  ipLocationData sample_session = ipLocationData sample_switched.
Proof.
  assert (Hstep : step EStyleData sample_switched = Some sample_session)
    by (vm_compute; reflexivity).
  split; [exact Hstep |].
  apply (only_load_changes_data EStyleData sample_switched sample_session Hstep).
  intros o H. discriminate H.
Defined.

(** ** The load *)

Lemma loadGeoJSONData_catch_text (message : jsstring) (w : World) (el : StatusEl) :
  ip_count w = Some el ->
  exists shown,
    ip_count (loadGeoJSONData_catch message w)
    = Some {| textContent := emoji_cross ++ lit " Error: " ++ shown;
              color := lit "#e74c3c" |}.
Proof.
  intros Hel. unfold loadGeoJSONData_catch.
  destruct (includes (lit "404") message);
    [| destruct (includes (lit "Failed to fetch") message)];
    eexists; apply (showErrorMessage_text _ _ el Hel).
Qed.

Lemma loadGeoJSONData_catch_frame (message : jsstring) (w : World) :
  map (loadGeoJSONData_catch message w) = map w /\
  controls (loadGeoJSONData_catch message w) = controls w /\
  ui_listeners (loadGeoJSONData_catch message w) = ui_listeners w.
Proof.
  unfold loadGeoJSONData_catch, showErrorMessage.
  destruct (includes (lit "404") message);
    [| destruct (includes (lit "Failed to fetch") message)];
    destruct (ip_count w); repeat split.
Qed.

Lemma loading_shown_frame (w : World) :
  map (loading_shown w) = map w /\
  controls (loading_shown w) = controls w /\
  ui_listeners (loading_shown w) = ui_listeners w.
Proof.
  unfold loading_shown, updateIPCount. destruct (ip_count w); repeat split.
Qed.

(** Every load that is not accepted ends in the [catch] block, on the page
    as it was but for the loading text and, once the body has parsed, the
    stored value. *)
Lemma load_rejected_form (o : FetchOutcome) (w : World) :
  load_accepts o = false ->
  exists message w0,
    loadGeoJSONData o w = loadGeoJSONData_catch message w0 /\
    map w0 = map w /\ controls w0 = controls w /\
    ui_listeners w0 = ui_listeners w /\
    (forall el, ip_count w = Some el -> exists el0, ip_count w0 = Some el0).
Proof.
  intros Hrej.
  destruct (loading_shown_frame w) as (Hm & Hc & Hu).
  assert (Hst : forall el, ip_count w = Some el ->
                           exists el0, ip_count (loading_shown w) = Some el0)
    by (intros el; apply loading_shown_status).
  destruct o as [message | st txt [v | message]]; cbn [load_accepts] in Hrej.
  - exists message, (loading_shown w). rewrite load_rejected. auto.
  - destruct (response_ok st) eqn:Hok.
    2:{ eexists; exists (loading_shown w).
        rewrite (load_http_error st txt _ w Hok). auto. }
    destruct (truthy v) eqn:Hv.
    2:{ eexists; exists (set_ipLocationData v (loading_shown w)).
        rewrite (load_missing_features st txt v w Hok (or_introl Hv)). auto. }
    destruct (truthy (get_prop v (lit "features"))) eqn:Hf.
    2:{ eexists; exists (set_ipLocationData v (loading_shown w)).
        rewrite (load_missing_features st txt v w Hok (or_intror Hf)). auto. }
    destruct (strict_eq_zero (get_prop (get_prop v (lit "features")) (lit "length")))
      eqn:Hz; [| discriminate].
    eexists; exists (set_ipLocationData v (loading_shown w)).
    rewrite (load_empty_features st txt v w Hok Hv Hf Hz). auto.
  - destruct (response_ok st) eqn:Hok.
    + exists message, (loading_shown w).
      rewrite (load_syntax_error st txt message w Hok). auto.
    + eexists; exists (loading_shown w).
      rewrite (load_http_error st txt _ w Hok). auto.
Qed.

Lemma rejected_load_frame (o : FetchOutcome) (w : World) :
  load_accepts o = false ->
  map (loadGeoJSONData o w) = map w /\
  controls (loadGeoJSONData o w) = controls w /\
  ui_listeners (loadGeoJSONData o w) = ui_listeners w.
Proof.
  intros Hrej.
  destruct (load_rejected_form o w Hrej) as (message & w0 & E & Hm & Hc & Hu & _).
  destruct (loadGeoJSONData_catch_frame message w0) as (Hm' & Hc' & Hu').
  rewrite E. repeat split; congruence.
Qed.

(** X3: a load that is not accepted (rejected fetch, response that is not
    ok, body that does not parse, value without a truthy [features] member
    or with one of length zero) makes no call on the map and leaves it, the
    controls and their listeners as they were; with the status element
    present it ends on a red text that begins with the error prefix. *)
Theorem rejected_load_leaves_map (o : FetchOutcome) (w : World) :
  load_accepts o = false ->
  map (loadGeoJSONData o w) = map w /\
  controls (loadGeoJSONData o w) = controls w /\
  ui_listeners (loadGeoJSONData o w) = ui_listeners w /\
  (forall el,
      ip_count w = Some el ->
      exists shown,
        ip_count (loadGeoJSONData o w)
        = Some {| textContent := emoji_cross ++ lit " Error: " ++ shown;
                  color := lit "#e74c3c" |}).
Proof.
  intros Hrej.
  destruct (load_rejected_form o w Hrej) as (message & w0 & E & Hm & Hc & Hu & Hst).
  destruct (loadGeoJSONData_catch_frame message w0) as (Hm' & Hc' & Hu').
  rewrite E. repeat split; try congruence.
  intros el Hel. destruct (Hst el Hel) as [el0 Hel0].
  exact (loadGeoJSONData_catch_text message w0 el0 Hel0).
Qed.

Lemma rejected_load_leaves_map_witness :
  load_accepts (FetchResponse 200 (lit "OK") (Ok empty_collection)) = false /\
  map (loadGeoJSONData (FetchResponse 200 (lit "OK") (Ok empty_collection))
         ready_world)
  = map ready_world.
Proof.
  split; [reflexivity |].
  exact (proj1 (rejected_load_leaves_map
                  (FetchResponse 200 (lit "OK") (Ok empty_collection))
                  ready_world eq_refl)).
Defined.




(** X5: neither the load nor the render moves the camera, changes the style
    or touches the pending [styledata] closures, whatever the response and
    whatever is registered on the map. *)
Theorem load_and_render_keep_camera (o : FetchOutcome) (w : World) (m : MapObj) :
  map w = Some m ->
  (exists m1,
      map (addGeoJSONToMap w) = Some m1 /\
      camera m1 = camera m /\ style m1 = style m /\
      once_styledata m1 = once_styledata m) /\
  (exists m2,
      map (loadGeoJSONData o w) = Some m2 /\
      camera m2 = camera m /\ style m2 = style m /\
      once_styledata m2 = once_styledata m).
Proof.
  intros Hmap.
  assert (Hrender : forall w0, map w0 = Some m ->
            exists m1,
              map (addGeoJSONToMap w0) = Some m1 /\
              camera m1 = camera m /\ style m1 = style m /\
              once_styledata m1 = once_styledata m).
  { intros w0 H0.
    destruct (addGeoJSONToMap_registers_source w0 m H0)
      as (m1 & Hm1 & _ & _ & Hc & Hst & Ho & _).
    exists m1. auto. }
  split; [exact (Hrender w Hmap) |].
  destruct (load_accepts o) eqn:Hacc.
  - destruct o as [message | st txt [v | message]]; try discriminate.
    cbn [load_accepts] in Hacc.
    apply andb_true_iff in Hacc. destruct Hacc as [Hacc Hz].
    apply andb_true_iff in Hacc. destruct Hacc as [Hacc Hf].
    apply andb_true_iff in Hacc. destruct Hacc as [Hok Hv].
    apply negb_true_iff in Hz.
    rewrite (load_success st txt v w Hok Hv Hf Hz).
    apply Hrender.
    rewrite (proj1 (updateIPCount_keeps _ _)). cbn [map set_ipLocationData].
    rewrite (proj1 (loading_shown_frame w)). exact Hmap.
  - destruct (rejected_load_frame o w Hacc) as (Hm & _).
    exists m. rewrite Hm. auto.
Qed.

Lemma load_and_render_keep_camera_witness :
  map ready_world = Some ready_map /\
  exists m2,
    map (loadGeoJSONData (FetchResponse 200 (lit "OK") (Ok one_point_collection))
           ready_world) = Some m2 /\
    camera m2 = camera ready_map.
Proof.
  split; [reflexivity |].
  destruct (proj2 (load_and_render_keep_camera
                     (FetchResponse 200 (lit "OK") (Ok one_point_collection))
                     ready_world ready_map eq_refl))
    as (m2 & Hm & Hc & _).
  exists m2. split; assumption.
Defined.

(** ** Clicks on the layers *)





Lemma close_on_click_new (old new : list Popup) (m : MapObj) :
  popups m = old ++ new ->
  popups (close_on_click (length old) m)
  = filter (fun p => negb (popup_closeOnClick p)) old ++ new.
Proof.
  intros H. unfold close_on_click. cbn [popups set_popups]. rewrite H.
  rewrite firstn_app, skipn_app, firstn_all, skipn_all, Nat.sub_diag.
  cbn [firstn skipn]. rewrite app_nil_r. reflexivity.
Qed.




(** After the sample session one click opens two popups, both at longitude
    -181. *)
Example sample_click_opens_two_popups :
  option_map
    (fun w' =>
       match map w' with
       | Some m => List.map popup_lngLat (popups m)
       | None => []
       end)
    (fire_layer_event 1 (lit "click") (lit "unclustered-point")
       sample_click sample_session)
  = Some [ (179 + - (360), 10); (179 + - (360), 10) ].
Proof. vm_compute. reflexivity. Qed.

Lemma on_cluster_click_with_source (e : ClusterClick) (id : Z) (c : Q * Q)
  (rest : list (Z * (Q * Q))) (w : World) (m : MapObj) :
  rendered_clusters e = (id, c) :: rest ->
  map w = Some m ->
  has_source (lit "ip-locations") m = true ->
  exists m',
    on_cluster_click e w = set_map m' w /\
    camera m' = match expansion_zoom e with
                | Ok z => set_zoom z (set_center c (camera m))
                | Throw _ => camera m
                end /\
    popups m' = popups m /\ sources m' = sources m /\ layers m' = layers m /\
    listeners m' = listeners m /\ style m' = style m /\ cursor m' = cursor m.
Proof.
  intros He Hmap Hsrc.
  destruct w as [mp d ic cs ul]. cbn [map] in Hmap. subst mp.
  unfold on_cluster_click, bind, on_map. cbn [map set_map]. rewrite He.
  cbn [map set_map].
  change (has_source (lit "ip-locations") (log_call CQueryRenderedFeatures m))
    with (has_source (lit "ip-locations") m).
  rewrite Hsrc.
  destruct (expansion_zoom e) as [z | msg].
  - unfold map_easeTo, on_map. cbn [map set_map].
    eexists. split; [reflexivity |]. repeat split.
  - unfold ret. eexists. split; [reflexivity |]. repeat split.
Qed.

Lemma fire_listeners_cluster_set (fuel : nat) (e : MapMouseEvent)
  (rest : list (jsstring * jsstring * Handler)) (w : World) :
  fire_listeners fuel (lit "click") (lit "clusters") e
    (interaction_listeners ++ rest) w
  = fire_listeners fuel (lit "click") (lit "clusters") e rest
      (on_cluster_click (as_cluster e) w).
Proof. reflexivity. Qed.

(** [k] sets of listeners ask for the zoom and move the camera [k] times,
    each time to the same place. *)
Lemma fire_listeners_cluster_sets (fuel : nat) (e : MapMouseEvent) (id : Z)
  (c : Q * Q) (rest : list (Z * (Q * Q))) (k : nat) :
  rendered_clusters (as_cluster e) = (id, c) :: rest ->
  forall (w : World) (m : MapObj),
    map w = Some m ->
    has_source (lit "ip-locations") m = true ->
    exists m',
      fire_listeners fuel (lit "click") (lit "clusters") e
        (concat (repeat interaction_listeners k)) w = Some (set_map m' w) /\
      camera m' = match k, expansion_zoom (as_cluster e) with
                  | S _, Ok z => set_zoom z (set_center c (camera m))
                  | _, _ => camera m
                  end /\
      popups m' = popups m /\ sources m' = sources m /\ layers m' = layers m /\
      listeners m' = listeners m /\ style m' = style m /\ cursor m' = cursor m.
Proof.
  intros He. induction k as [| k IH]; intros w m Hmap Hsrc.
  - exists m. cbn [repeat concat fire_listeners].
    split; [| repeat split].
    destruct w as [mp d ic cs ul]. cbn [map] in Hmap. subst mp. reflexivity.
  - cbn [repeat concat]. rewrite fire_listeners_cluster_set.
    destruct (on_cluster_click_with_source _ id c rest w m He Hmap Hsrc)
      as (m1 & E1 & Hc1 & Hp1 & Hs1 & Hl1 & Hli1 & Hst1 & Hcu1).
    rewrite E1.
    assert (Hsrc1 : has_source (lit "ip-locations") m1 = true)
      by (unfold has_source in *; rewrite Hs1; exact Hsrc).
    destruct (IH (set_map m1 w) m1 eq_refl Hsrc1)
      as (m' & E & Hc & Hp & Hs & Hl & Hli & Hst & Hcu).
    exists m'. rewrite E, set_map_set_map.
    split; [reflexivity |].
    split; [| repeat split; congruence].
    rewrite Hc, Hc1.
    destruct k, (expansion_zoom (as_cluster e)); reflexivity.
Qed.

(** X7: on a page the script can bring about, with the clusters layer on
    the map, a click on a cluster moves the camera to the cluster's
    coordinates at the zoom the source answers, keeping pitch and bearing;
    when the source answers with an error the camera stays where it is.  In
    both cases the popups open before the click close, and the sources,
    layers, listeners and style of the map, the status line and the loaded
    data are as before. *)
Theorem cluster_click_moves_only_the_camera
  (fuel : nat) (e : MapMouseEvent) (id : Z) (c : Q * Q)
  (rest : list (Z * (Q * Q))) (w : World) (m : MapObj) :
  reachable w ->
  map w = Some m ->
  has_layer (lit "clusters") m = true ->
  rendered_clusters (as_cluster e) = (id, c) :: rest ->
  exists m',
    fire_layer_event fuel (lit "click") (lit "clusters") e w
    = Some (set_map m' w) /\
    camera m' = match expansion_zoom (as_cluster e) with
                | Ok z => {| center := c; zoom := z;
                             pitch := pitch (camera m);
                             bearing := bearing (camera m) |}
                | Throw _ => camera m
                end /\
    popups m' = filter (fun p => negb (popup_closeOnClick p)) (popups m) /\
    sources m' = sources m /\ layers m' = layers m /\
    listeners m' = listeners m /\ style m' = style m.
Proof.
  intros Hreach Hmap Hlayer He.
  pose proof (reachable_well_formed w Hreach) as Hwf.
  unfold well_formed in Hwf. rewrite Hmap in Hwf.
  destruct Hwf as [Hshape (k & Hk & Hone)].
  assert (Hne : layers m <> []).
  { intros Hnil. unfold has_layer in Hlayer. rewrite Hnil in Hlayer. discriminate. }
  assert (Hsrc : has_source (lit "ip-locations") m = true).
  { destruct Hshape as [[_ Hl] | (data & Hs & _)]; [contradiction |].
    unfold has_source. rewrite Hs. reflexivity. }
  destruct (fire_listeners_cluster_sets fuel e id c rest k He w m Hmap Hsrc)
    as (m1 & E & Hc & Hp & Hs & Hl & Hli & Hst & _).
  unfold fire_layer_event. rewrite Hmap, Hlayer, Hk, E.
  change (jsstring_eqb (lit "click") (lit "click")) with true. cbv iota.
  unfold run, on_map. cbn [map set_map snd]. rewrite set_map_set_map.
  eexists. split; [reflexivity |].
  split.
  { unfold close_on_click. cbn [camera set_popups]. rewrite Hc.
    specialize (Hone Hne). destruct k as [| k]; [lia |].
    destruct (expansion_zoom (as_cluster e)); reflexivity. }
  split.
  { rewrite (close_on_click_new (popups m) [] m1) by (rewrite app_nil_r; exact Hp).
    apply app_nil_r. }
  unfold close_on_click, listener_sets in *.
  cbn [sources layers listeners style set_popups].
  repeat split; congruence.
Qed.

Lemma sample_session_has_clusters_layer :
  exists m,
    map sample_session = Some m /\
    has_layer (lit "clusters") m = true.
Proof.
  eexists. split; vm_compute; reflexivity.
Defined.

Lemma cluster_click_moves_only_the_camera_witness :
  exists m m',
    map sample_session = Some m /\
    has_layer (lit "clusters") m = true /\
    fire_layer_event 0 (lit "click") (lit "clusters") sample_click sample_session
    = Some (set_map m' sample_session) /\
    camera m' = {| center := (12, 48); zoom := 6;
                   pitch := pitch (camera m); bearing := bearing (camera m) |}.
Proof.
  destruct sample_session_has_clusters_layer as (m & Hm & Hl).
  destruct (cluster_click_moves_only_the_camera 0 sample_click 7 (12, 48) []
              sample_session m sample_session_reachable Hm Hl eq_refl)
    as (m' & E & Hc & _).
  exists m, m'. repeat split; assumption.
Defined.

(** ** The longitude of the popup *)




(** ** The text of the popup *)

(** X9: the text shown for a url is never longer than 53 code units and
    always begins with the first 50 code units of the url; it is shorter
    than the url only for a url of more than 53 code units, and for a url
    of 51 or 52 code units the text shown is longer than the url itself. *)
Theorem formattedUrl_length (properties : Properties) :
  let n := length (url properties) in
  let shown := formattedUrl properties in
  length shown = (if (50 <? n)%nat then 53 else n)%nat /\
  (length shown <= 53)%nat /\
  firstn 50 shown = firstn 50 (url properties) /\
  ((length shown < n)%nat <-> (53 < n)%nat) /\
  ((n < length shown)%nat <-> (50 < n < 53)%nat).
Proof.
  cbv zeta. unfold formattedUrl, js_length_str, substring0.
  destruct (Nat.ltb_spec 50 (length (url properties))) as [Hlt | Hle].
  - assert (Hlen : length (firstn 50 (url properties) ++ lit "...") = 53%nat).
    { rewrite length_app, length_firstn.
      change (length (lit "...")) with 3%nat. lia. }
    rewrite Hlen.
    split; [reflexivity |]. split; [lia |].
    split; [| lia].
    rewrite firstn_app, firstn_firstn, length_firstn.
    replace (50 - Nat.min 50 (length (url properties)))%nat with 0%nat by lia.
    rewrite firstn_O, app_nil_r. reflexivity.
  - split; [reflexivity |]. split; [lia |]. split; [reflexivity | lia].
Qed.

Example formattedUrl_of_51 :
  let p := {| ip := []; url := repeat 97%N 51 |} in
  length (url p) = 51%nat /\ length (formattedUrl p) = 53%nat.
Proof. split; reflexivity. Qed.




(** ** The toolbar *)

Lemma setupEventListeners_listeners (w : World) :
  ui_listeners (setupEventListeners w)
  = ui_listeners w
    ++ (if has_control (lit "map-style") w
        then [(lit "map-style", lit "change", UStyleChange)] else [])
    ++ (if has_control (lit "zoom-in") w
        then [(lit "zoom-in", lit "click", UZoomIn)] else [])
    ++ (if has_control (lit "zoom-out") w
        then [(lit "zoom-out", lit "click", UZoomOut)] else [])
    ++ (if has_control (lit "reset-view") w
        then [(lit "reset-view", lit "click", UResetView)] else []).
Proof.
  destruct w as [mp d ic cs ul].
  unfold setupEventListeners, listen, has_control. cbn [controls].
  repeat match goal with
         | |- context [if existsb ?f cs then _ else _] =>
             destruct (existsb f cs);
             cbn [controls add_ui_listener ui_listeners]
         end;
    rewrite <- ?app_assoc, ?app_nil_r; reflexivity.
Qed.

(** X11: on a page without toolbar listeners yet, [setupEventListeners]
    wires exactly the controls that are in the document: afterwards a
    change of the style selector runs [changeMapStyle] with the selected
    value, and a click on a zoom or reset button runs its function, once
    each; for a control that is absent the event changes nothing, as does
    any event on an element that is not in the document. *)
Theorem setup_wires_the_controls_present (w : World) (value : jsstring) :
  ui_listeners w = [] ->
  let w' := setupEventListeners w in
  dispatch_ui (lit "map-style") (lit "change") value w'
  = (if has_control (lit "map-style") w then changeMapStyle value w' else w') /\
  dispatch_ui (lit "zoom-in") (lit "click") value w'
  = (if has_control (lit "zoom-in") w then zoomInClick w' else w') /\
  dispatch_ui (lit "zoom-out") (lit "click") value w'
  = (if has_control (lit "zoom-out") w then zoomOutClick w' else w') /\
  dispatch_ui (lit "reset-view") (lit "click") value w'
  = (if has_control (lit "reset-view") w then resetMapView w' else w') /\
  forall id event,
    has_control id w = false -> dispatch_ui id event value w' = w'.
Proof.
  intros Hul. cbv zeta. unfold dispatch_ui.
  rewrite setupEventListeners_listeners, Hul. cbn [app].
  generalize (setupEventListeners w). intros w'.
  destruct (has_control (lit "map-style") w) eqn:H1,
           (has_control (lit "zoom-in") w) eqn:H2,
           (has_control (lit "zoom-out") w) eqn:H3,
           (has_control (lit "reset-view") w) eqn:H4;
    (split; [reflexivity |]); (split; [reflexivity |]);
    (split; [reflexivity |]); (split; [reflexivity |]);
    intros id event Hid; cbn [app fold_left];
    repeat match goal with
           | |- context [jsstring_eqb id ?l] =>
               let E := fresh "E" in
               destruct (jsstring_eqb id l) eqn:E;
               [apply jsstring_eqb_eq in E; subst id; congruence
               | cbn [andb]]
           end;
    reflexivity.
Qed.

Lemma setup_wires_the_controls_present_witness :
  ui_listeners initial_world = [] /\
  dispatch_ui (lit "zoom-in") (lit "click") [] (setupEventListeners initial_world)
  = zoomInClick (setupEventListeners initial_world).
Proof.
  split; [reflexivity |].
  exact (proj1 (proj2 (setup_wires_the_controls_present initial_world []
                         eq_refl))).
Defined.

Lemma run_ui_handler_no_map (h : UiHandler) (value : jsstring) (w : World) :
  map w = None -> run_ui_handler h value w = w.
Proof.
  intros H.
  destruct h; cbn [run_ui_handler];
    unfold changeMapStyle, zoomInClick, zoomOutClick, resetMapView;
    rewrite H; reflexivity.
Qed.

Lemma dispatch_ui_no_map (id event value : jsstring) (w : World) :
  map w = None -> dispatch_ui id event value w = w.
Proof.
  intros H. unfold dispatch_ui.
  induction (ui_listeners w) as [| [[id' event'] h] l IH]; [reflexivity |].
  cbn [fold_left].
  destruct (jsstring_eqb id id' && jsstring_eqb event event');
    [rewrite run_ui_handler_no_map by exact H |]; exact IH.
Qed.

(** X12: when the mapping library is missing, the page start leaves the
    map unset, shows the initialisation error on the status line, and
    leaves a toolbar that does nothing: whatever control is used, with
    whatever value, the page stays as it is. *)
Theorem missing_library_leaves_page_inert (w : World) :
  map w = None ->
  let w' := onDOMContentLoaded false w in
  map w' = None /\
  ipLocationData w' = ipLocationData w /\
  (forall el,
      ip_count w = Some el ->
      ip_count w'
      = Some {| textContent :=
                  emoji_cross ++ lit " Error: "
                  ++ lit "Failed to initialize map: "
                  ++ lit "MapLibre GL JS library not loaded";
                color := lit "#e74c3c" |}) /\
  forall id event value, dispatch_ui id event value w' = w'.
Proof.
  intros Hmap. cbv zeta. rewrite onDOMContentLoaded_eq.
  destruct (setupEventListeners_keeps w) as (Hm & Hd & Hi & _).
  unfold initializeMap, try_catch, throw.
  set (w0 := setupEventListeners w) in *.
  set (msg := lit "Failed to initialize map: "
              ++ lit "MapLibre GL JS library not loaded").
  destruct (showErrorMessage_map msg w0) as [Hm' Hd'].
  assert (Hnone : map (showErrorMessage msg w0) = None) by congruence.
  split; [exact Hnone |]. split; [congruence |].
  split.
  - intros el Hel. rewrite <- Hi in Hel.
    unfold showErrorMessage. rewrite Hel. reflexivity.
  - intros id event value. apply dispatch_ui_no_map, Hnone.
Qed.

Lemma missing_library_leaves_page_inert_witness :
  map initial_world = None /\
  dispatch_ui (lit "zoom-in") (lit "click") []
    (onDOMContentLoaded false initial_world)
  = onDOMContentLoaded false initial_world.
Proof.
  split; [reflexivity |].
  exact (proj2 (proj2 (proj2 (missing_library_leaves_page_inert initial_world
                                eq_refl)))
           (lit "zoom-in") (lit "click") []).
Defined.

(** ** The style event *)

Lemma fire_styledata_nothing_pending (w : World) (m : MapObj) :
  map w = Some m -> once_styledata m = [] -> fire_styledata w = w.
Proof.
  intros Hmap Honce. unfold fire_styledata. rewrite Hmap, Honce.
  destruct w as [mp d ic cs ul]. cbn [map] in Hmap. subst mp.
  destruct m as [st cam srcs lys lis once pops cur cls].
  cbn [once_styledata] in Honce. subst once. reflexivity.
Qed.

Lemma fire_styledata_clears (w : World) (m' : MapObj) :
  map (fire_styledata w) = Some m' -> once_styledata m' = [].
Proof.
  unfold fire_styledata. destruct (map w) as [m |] eqn:Hmap.
  - destruct (fire_pending (once_styledata m)
                (set_map (set_once_styledata [] m) w) _ eq_refl)
      as (m2 & Hm2 & _ & Ho & _).
    rewrite Hm2. intros [= <-]. exact Ho.
  - rewrite Hmap. discriminate.
Qed.

(** X13: the closures a style switch leaves pending run at the first
    [styledata] event only: after the event none is pending, an event with
    none pending changes nothing, and so a second event right after the
    first changes nothing. *)
Theorem styledata_closures_run_once (w : World) :
  (forall m', map (fire_styledata w) = Some m' -> once_styledata m' = []) /\
  (forall m, map w = Some m -> once_styledata m = [] -> fire_styledata w = w) /\
  fire_styledata (fire_styledata w) = fire_styledata w.
Proof.
  split; [apply fire_styledata_clears |].
  split; [apply fire_styledata_nothing_pending |].
  destruct (map (fire_styledata w)) as [m' |] eqn:Hmap.
  - apply (fire_styledata_nothing_pending _ m' Hmap).
    apply (fire_styledata_clears w), Hmap.
  - unfold fire_styledata at 1. rewrite Hmap. reflexivity.
Qed.




(** ** What the load stores, and a render that fails *)

(** X15: what the global holds after a load is decided by the fetch
    alone: the value parsed from the body of a response that is ok,
    whatever that value is, and in every other case (a rejected fetch, a
    status outside 200..299, a body that does not parse) the data held
    before. *)
Theorem load_stores_exactly_what_parses (o : FetchOutcome) (w : World) :
  ipLocationData (loadGeoJSONData o w)
  = match o with
    | FetchResponse status _ (Ok v) =>
        if response_ok status then v else ipLocationData w
    | _ => ipLocationData w
    end.
Proof.
  destruct (load_failure_before_parse_keeps_data w) as (Hrej & Hhttp & Hsyn).
  destruct o as [message | status statusText [v | message]].
  - apply Hrej.
  - destruct (response_ok status) eqn:Hok.
    + apply load_stores_whatever_parses, Hok.
    + apply Hhttp, Hok.
  - apply Hsyn.
Qed.

(** X16: a render without a map, or on a map that has the source
    registered, reports its failure on the status line and leaves the map,
    its sources, layers and listeners, and the loaded data as they are. *)
Theorem failed_render_reports_and_keeps (w : World) (el : StatusEl) :
  ip_count w = Some el ->
  (map w = None \/
   exists m, map w = Some m /\ has_source (lit "ip-locations") m = true) ->
  ip_count (addGeoJSONToMap w)
  = Some {| textContent :=
              emoji_cross ++ lit " Error: "
              ++ lit "Failed to display IP locations on map.";
            color := lit "#e74c3c" |} /\
  keeps_layers w (addGeoJSONToMap w) /\
  match map w, map (addGeoJSONToMap w) with
  | Some m, Some m' =>
      camera m' = camera m /\ style m' = style m /\ popups m' = popups m
  | None, None => True
  | _, _ => False
  end.
Proof.
  intros Hel [Hnone | (m & Hmap & Hdup)].
  - rewrite (addGeoJSONToMap_no_map w Hnone).
    destruct (showErrorMessage_map
                (lit "Failed to display IP locations on map.") w) as [Hm Hd].
    split; [apply (showErrorMessage_text _ w el Hel) |].
    split; [apply keeps_layers_of_eq; split; assumption |].
    rewrite Hm, Hnone. exact I.
  - rewrite (addGeoJSONToMap_duplicate w m Hmap Hdup).
    match goal with
    | |- context [showErrorMessage ?msg ?w0] =>
        destruct (showErrorMessage_map msg w0) as [Hm Hd]
    end.
    split; [apply (showErrorMessage_text _ _ el); exact Hel |].
    split.
    + unfold keeps_layers. rewrite Hm, Hd, Hmap. cbn [map set_map ipLocationData].
      repeat split.
    + rewrite Hm, Hmap. cbn [map set_map]. repeat split.
Qed.

Lemma failed_render_reports_and_keeps_witness :
  ip_count initial_world = Some {| textContent := []; color := [] |} /\
  map initial_world = None /\
  ip_count (addGeoJSONToMap initial_world)
  = Some {| textContent :=
              emoji_cross ++ lit " Error: "
              ++ lit "Failed to display IP locations on map.";
            color := lit "#e74c3c" |}.
Proof.
  split; [reflexivity |]. split; [reflexivity |].
  exact (proj1 (failed_render_reports_and_keeps initial_world _ eq_refl
                  (or_introl eq_refl))).
Defined.

(** ** The three layers *)

(** X17: the filters of the three layers split the features of the source
    in two: whatever properties a feature has, it is drawn by the clusters
    layer together with its count label, or by the unclustered-point layer,
    never by both and never by neither; and each layer reads the source the
    render registers. *)
Theorem layers_split_the_features (has : jsstring -> bool) (data : Val) :
  eval_filter (layer_filter cluster_count_layer) has
  = eval_filter (layer_filter clusters_layer) has /\
  eval_filter (layer_filter unclustered_point_layer) has
  = negb (eval_filter (layer_filter clusters_layer) has) /\
  Forall (fun l => layer_source l = source_id (ip_locations_source data))
    [clusters_layer; cluster_count_layer; unclustered_point_layer].
Proof.
  split; [reflexivity |]. split; [reflexivity |].
  repeat constructor.
Qed.

(** ** Hovering *)

Lemma on_hover_with_map (c : jsstring) (w : World) (m : MapObj) :
  map w = Some m ->
  run (map_setCursor c) w
  = set_map (set_cursor c (log_call (CSetCursor c) m)) w.
Proof.
  intros Hmap. unfold run, map_setCursor, on_map. rewrite Hmap. reflexivity.
Qed.

(** [k] sets of listeners set the cursor [k] times. *)
Lemma fire_listeners_hover_sets (fuel : nat) (e : MapMouseEvent)
  (event layer c : jsstring) (k : nat) :
  (forall rest w,
      fire_listeners fuel event layer e (interaction_listeners ++ rest) w
      = fire_listeners fuel event layer e rest (run (map_setCursor c) w)) ->
  forall (w : World) (m : MapObj),
    map w = Some m ->
    exists m',
      fire_listeners fuel event layer e
        (concat (repeat interaction_listeners k)) w = Some (set_map m' w) /\
      cursor m' = match k with O => cursor m | S _ => c end /\
      camera m' = camera m /\ popups m' = popups m /\
      sources m' = sources m /\ layers m' = layers m /\
      listeners m' = listeners m /\ style m' = style m.
Proof.
  intros Hset. induction k as [| k IH]; intros w m Hmap.
  - exists m. cbn [repeat concat fire_listeners].
    split; [| repeat split].
    destruct w as [mp d ic cs ul]. cbn [map] in Hmap. subst mp. reflexivity.
  - cbn [repeat concat]. rewrite Hset, (on_hover_with_map c w m Hmap).
    destruct (IH (set_map (set_cursor c (log_call (CSetCursor c) m)) w) _ eq_refl)
      as (m' & E & Hcu & Hc & Hp & Hs & Hl & Hli & Hst).
    exists m'. rewrite E, set_map_set_map.
    split; [reflexivity |].
    cbn [cursor camera popups sources layers listeners style set_cursor log_call]
      in *.
    split; [destruct k; exact Hcu |].
    repeat split; assumption.
Qed.

(** X18: on a page the script can bring about, moving the pointer onto a
    cluster or a point sets the cursor to the pointer, and moving it off
    sets the cursor back to the default; the camera, the popups, the
    sources, layers, listeners and style of the map, the status line and
    the loaded data are untouched. *)
Theorem hover_toggles_only_the_cursor
  (fuel : nat) (e : MapMouseEvent) (layer : jsstring) (w : World) (m : MapObj) :
  reachable w ->
  map w = Some m ->
  layer = lit "clusters" \/ layer = lit "unclustered-point" ->
  has_layer layer m = true ->
  forall (enter : bool),
    exists m',
      fire_layer_event fuel
        (if enter then lit "mouseenter" else lit "mouseleave") layer e w
      = Some (set_map m' w) /\
      cursor m' = (if enter then lit "pointer" else []) /\
      camera m' = camera m /\ popups m' = popups m /\
      sources m' = sources m /\ layers m' = layers m /\
      listeners m' = listeners m /\ style m' = style m.
Proof.
  intros Hreach Hmap Hwhich Hlayer enter.
  pose proof (reachable_well_formed w Hreach) as Hwf.
  unfold well_formed in Hwf. rewrite Hmap in Hwf.
  destruct Hwf as [_ (k & Hk & Hone)].
  assert (Hne : layers m <> []).
  { intros Hnil. unfold has_layer in Hlayer. rewrite Hnil in Hlayer. discriminate. }
  specialize (Hone Hne). destruct k as [| k]; [lia |].
  unfold fire_layer_event. rewrite Hmap, Hlayer, Hk.
  destruct (fire_listeners_hover_sets fuel e
              (if enter then lit "mouseenter" else lit "mouseleave") layer
              (if enter then lit "pointer" else []) (S k)) with (w := w) (m := m)
    as (m' & E & Hcu & Hrest).
  { intros rest w0. destruct Hwhich as [-> | ->], enter; reflexivity. }
  { exact Hmap. }
  rewrite E.
  replace (jsstring_eqb (if enter then lit "mouseenter" else lit "mouseleave")
             (lit "click")) with false by (destruct enter; reflexivity).
  exists m'. split; [reflexivity |]. split; [exact Hcu |].
  unfold listener_sets in Hk. rewrite <- Hk. exact Hrest.
Qed.

Lemma hover_toggles_only_the_cursor_witness :
  exists m m',
    map sample_session = Some m /\
    has_layer (lit "clusters") m = true /\
    fire_layer_event 0 (lit "mouseenter") (lit "clusters") sample_click
      sample_session = Some (set_map m' sample_session) /\
    cursor m' = lit "pointer".
Proof.
  destruct sample_session_has_clusters_layer as (m & Hm & Hl).
  pose proof (hover_toggles_only_the_cursor 0 sample_click (lit "clusters")
                sample_session m sample_session_reachable Hm
                (or_introl eq_refl) Hl true) as H.
  cbv iota in H. destruct H as (m' & E & Hc & _).
  exists m, m'.
  split; [exact Hm |]. split; [exact Hl |]. split; [exact E | exact Hc].
Defined.

(** ** Errors of the map *)

(** X19: the listener for the map's [error] event always names a cause:
    it shows the message of the error when there is one that is not empty,
    and "Unknown map error" when the event carries no error, no message or
    an empty message; the map and the loaded data stay as they are. *)
Theorem map_error_always_names_a_cause
  (message : option jsstring) (w : World) (el : StatusEl) :
  ip_count w = Some el ->
  exists shown : jsstring,
    ip_count (map_error_listener message w)
    = Some {| textContent :=
                emoji_cross ++ lit " Error: " ++ lit "Map error: " ++ shown;
              color := lit "#e74c3c" |} /\
    shown <> [] /\
    shown = match message with
            | Some (c :: s) => c :: s
            | _ => lit "Unknown map error"
            end /\
    (message = Some [] -> shown = lit "Unknown map error") /\
    map (map_error_listener message w) = map w /\
    ipLocationData (map_error_listener message w) = ipLocationData w.
Proof.
  intros Hel. unfold map_error_listener.
  match goal with
  | |- context [showErrorMessage ?msg w] =>
      destruct (showErrorMessage_map msg w) as [Hm Hd];
      rewrite (showErrorMessage_text msg w el Hel)
  end.
  eexists. split; [reflexivity |].
  split; [destruct message as [[| c s] |]; discriminate |].
  split; [reflexivity |].
  split; [intros ->; reflexivity |].
  split; assumption.
Qed.

Lemma map_error_always_names_a_cause_witness :
  exists shown : jsstring,
    ip_count (map_error_listener (Some []) ready_world)
    = Some {| textContent :=
                emoji_cross ++ lit " Error: " ++ lit "Map error: " ++ shown;
              color := lit "#e74c3c" |} /\
    shown = lit "Unknown map error".
Proof.
  destruct (map_error_always_names_a_cause (Some []) ready_world _ eq_refl)
    as (shown & H & _ & _ & Hs & _).
  exists shown. split; [exact H | exact (Hs eq_refl)].
Defined.
